(** * rconjs: the Source RCON client, packet codec and session

    A shallow embedding of the RCON client script: the two packet codec
    functions [rcon_create_packet_structure] and [rcon_get_packet_structure],
    and the session object returned by [rcon_connect] ([send], [auth],
    [command]) running over a socket that is an event emitter.

    JavaScript numbers that the script handles are integers, modelled in [Z];
    a [Buffer] is a list of bytes; a string is the list of its UTF-16 code
    units; a raised exception is the [Throw] case of [result]. The methods
    of node's [Buffer] follow node's own implementation of them. The prompt
    loop, the configuration and [close] are left out. *)

From Stdlib Require Import ZArith Lia String Ascii.
From Stdlib Require Import Strings.Byte.
From stdpp Require Import base list.

Local Open Scope Z_scope.

(** ** Exceptions *)

Inductive js_error : Type :=
  | Error (message : string)          (* new Error(message) *)
  | RangeError (code : string)        (* node's ERR_OUT_OF_RANGE and the like *)
  | AuthenticationError (message : string) (* named by the spec only *)
  | SocketError (message : string).   (* an error the socket emits *)

Inductive result (A : Type) : Type :=
  | Ok (a : A)
  | Throw (e : js_error).
Arguments Ok {A} a.
Arguments Throw {A} e.

#[global] Instance result_bind : MBind result := fun A B k r =>
  match r with
  | Ok a => k a
  | Throw e => Throw e
  end.

(** ** Strings

    A JavaScript string is a sequence of 16-bit code units. *)

Abbreviation js_string := (list Z).

(** A string literal of this file as a JavaScript string. *)
Definition str (s : string) : js_string :=
  map (fun c => Z.of_N (N_of_ascii c)) (list_ascii_of_string s).

(** [buffer.constants.MAX_STRING_LENGTH] of the 64-bit V8 that runs the
    script (import assertions need node 17): no string is longer. *)
Definition MAX_STRING_LENGTH : Z := 2 ^ 29 - 24.

Definition string_length (s : js_string) : Z := Z.of_nat (length s).

Definition is_ascii (s : js_string) : Prop :=
  Forall (fun c => 0 <= c < 128) s.

(** ** Bytes *)

Definition byte_to_Z (b : byte) : Z := Z.of_N (Byte.to_N b).

(** Storing a number in a [Uint8Array] slot keeps it modulo 256. *)
Definition byte_of_Z (z : Z) : byte :=
  default x00 (Byte.of_N (Z.to_N (z mod 256))).

(** ** 32-bit integer conversions of the language *)

Definition INT32_MIN : Z := - 2 ^ 31.
Definition INT32_MAX : Z := 2 ^ 31 - 1.

Definition is_int32 (z : Z) : Prop := INT32_MIN <= z <= INT32_MAX.

Definition to_uint32 (z : Z) : Z := z mod 2 ^ 32.

Definition to_int32 (z : Z) : Z := (z + 2 ^ 31) mod 2 ^ 32 - 2 ^ 31.

(** [x >>> n] *)
Definition ushr (x n : Z) : Z := Z.shiftr (to_uint32 x) n.

(** [x << n] *)
Definition shl (x n : Z) : Z := to_int32 (Z.shiftl (to_int32 x) n).

(** ** node:buffer *)

Module Buffer.

Abbreviation t := (list byte).

(** [Buffer.alloc(size)]: [size] zero bytes. *)
Definition alloc (size : Z) : t := replicate (Z.to_nat size) x00.

(** [buf.length] *)
Definition length (buf : t) : Z := Z.of_nat (List.length buf).

(** [buf[i]]; [None] is [undefined]. *)
Definition get (buf : t) (i : Z) : option Z :=
  if i <? 0 then None else byte_to_Z <$> buf !! Z.to_nat i.

(** [buf[i] = v]; a typed array ignores a store outside its bounds. *)
Definition set (buf : t) (i : Z) (v : Z) : t :=
  if i <? 0 then buf else <[Z.to_nat i := byte_of_Z v]> buf.

(** UTF-8 length of a string, as [Buffer.byteLength(string)] computes it:
    a surrogate pair takes four bytes, a lone surrogate the three of
    U+FFFD. *)
Fixpoint utf8_length (s : js_string) : Z :=
  match s with
  | [] => 0
  | c :: rest =>
      if c <? 128 then 1 + utf8_length rest
      else if c <? 2048 then 2 + utf8_length rest
      else
        match rest with
        | d :: rest' =>
            if (55296 <=? c) && (c <=? 56319) && (56320 <=? d) && (d <=? 57343)
            then 4 + utf8_length rest'
            else 3 + utf8_length rest
        | [] => 3
        end
  end.

Definition byteLength (s : js_string) : Z := utf8_length s.

(** [checkInt]: the value range, then the bounds of the [byteLength + 1]
    bytes at [offset]. *)
Definition checkInt (value min max : Z) (buf : t) (offset byteLength : Z)
  : result unit :=
  if (value >? max) || (value <? min) then Throw (RangeError "ERR_OUT_OF_RANGE")
  else
    match get buf offset, get buf (offset + byteLength) with
    | Some _, Some _ => Ok tt
    | _, _ => Throw (RangeError "ERR_OUT_OF_RANGE")
    end.

(** [buf.writeInt32LE(value, offset)] *)
Definition writeInt32LE (buf : t) (value offset : Z) : result t :=
  checkInt value INT32_MIN INT32_MAX buf offset 3 ;;
  let buf := set buf offset value in
  let value := ushr value 8 in
  let buf := set buf (offset + 1) value in
  let value := ushr value 8 in
  let buf := set buf (offset + 2) value in
  let value := ushr value 8 in
  let buf := set buf (offset + 3) value in
  Ok buf.

(** [buf.writeInt16LE(value, offset)] *)
Definition writeInt16LE (buf : t) (value offset : Z) : result t :=
  checkInt value (- 2 ^ 15) (2 ^ 15 - 1) buf offset 1 ;;
  let buf := set buf offset value in
  let buf := set buf (offset + 1) (ushr value 8) in
  Ok buf.

(** [buf.readInt32LE(offset)]: it raises unless the first and the last of
    the four bytes exist, and the two between them exist when these do. *)
Definition readInt32LE (buf : t) (offset : Z) : result Z :=
  match get buf offset, get buf (offset + 3) with
  | Some first, Some last =>
      Ok (first
          + default 0 (get buf (offset + 1)) * 2 ^ 8
          + default 0 (get buf (offset + 2)) * 2 ^ 16
          + shl last 24)
  | _, _ => Throw (RangeError "ERR_OUT_OF_RANGE")
  end.

(** The encoder of 'ascii' (the one of 'latin1'): the low byte of every
    code unit, of at most [max] of them, stored from [offset] on. *)
Fixpoint store (buf : t) (offset : Z) (s : js_string) (max : nat) : t :=
  match s, max with
  | c :: rest, S max' => store (set buf offset c) (offset + 1) rest max'
  | _, _ => buf
  end.

(** [buf.write(string, offset, length, 'ascii')] *)
Definition write_ascii (buf : t) (s : js_string) (offset len : Z) : result t :=
  if (offset <? 0) || (length buf <? offset) then Throw (RangeError "ERR_OUT_OF_RANGE")
  else if (len <? 0) || (length buf <? len) then Throw (RangeError "ERR_OUT_OF_RANGE")
  else
    let remaining := length buf - offset in
    let len := if len >? remaining then remaining else len in
    Ok (store buf offset s (Z.to_nat len)).

(** The decoder of 'ascii': the high bit of every byte is cleared. *)
Definition ascii_slice (buf : t) (start end_ : Z) : js_string :=
  map (fun b => Z.land (byte_to_Z b) 127)
      (take (Z.to_nat (end_ - start)) (drop (Z.to_nat start) buf)).

(** [buf.toString('ascii', start, end)] *)
Definition toString_ascii (buf : t) (start end_ : Z) : js_string :=
  let len := length buf in
  if (0 <? start) && (len <=? start) then []
  else
    let start := if start <=? 0 then 0 else start in
    let end_ := if len <? end_ then len else end_ in
    if end_ <=? start then [] else ascii_slice buf start end_.

End Buffer.

(** ** The packet codec *)

Module PACKET_TYPES.
Definition SERVERDATA_AUTH : Z := 3.
Definition SERVERDATA_AUTH_RESPONSE : Z := 2.
Definition SERVERDATA_EXECCOMMAND : Z := 2.
Definition SERVERDATA_RESPONSE_VALUE : Z := 0.
End PACKET_TYPES.

Record PacketStructure : Type := mkPacket {
  size : Z;
  id : Z;
  type : Z;
  body : js_string;
}.

Definition rcon_create_packet_structure (id type : Z) (body : js_string)
  : result Buffer.t :=
  let size := Buffer.byteLength body + 14 in
  let buffer := Buffer.alloc size in
  buffer ← Buffer.writeInt32LE buffer (size - 4) 0;
  buffer ← Buffer.writeInt32LE buffer id 4;
  buffer ← Buffer.writeInt32LE buffer type 8;
  buffer ← Buffer.write_ascii buffer body 12 (size - 2);
  buffer ← Buffer.writeInt16LE buffer 0 (size - 2);
  Ok buffer.

Definition rcon_get_packet_structure (buffer : Buffer.t) : result PacketStructure :=
  size ← Buffer.readInt32LE buffer 0;
  id ← Buffer.readInt32LE buffer 4;
  type ← Buffer.readInt32LE buffer 8;
  Ok (mkPacket size id type
        (Buffer.toString_ascii buffer 12 (Buffer.length buffer - 2))).

(** ** The wire format, as the protocol words it

    Little-endian two's complement, independent of how node's [Buffer]
    computes it; the accessors of [Buffer] are compared with these. *)

Module Wire.

(** The [n] low bytes of [v], least significant first. *)
Fixpoint le_bytes (n : nat) (v : Z) : list byte :=
  match n with
  | O => []
  | S n' => byte_of_Z v :: le_bytes n' (v / 256)
  end.

(** The unsigned number a little-endian byte sequence stands for. *)
Fixpoint le_unsigned (bs : list byte) : Z :=
  match bs with
  | [] => 0
  | b :: rest => byte_to_Z b + 256 * le_unsigned rest
  end.

(** Four little-endian bytes read as a signed 32-bit integer. *)
Definition le_int32 (bs : list byte) : Z := to_int32 (le_unsigned bs).

(** Bytes [start] (included) to [stop] (excluded) of a buffer. *)
Definition slice (buf : list byte) (start stop : nat) : list byte :=
  take (stop - start) (drop start buf).

(** One 7-bit character per byte. *)
Definition ascii_chars (bs : list byte) : js_string :=
  map (fun b => Z.land (byte_to_Z b) 127) bs.

(** One byte per character. *)
Definition ascii_bytes (s : js_string) : list byte := map byte_of_Z s.

(** [int32 size | int32 id | int32 type | body | 0x00 | 0x00] *)
Definition frame (id type : Z) (body : js_string) : list byte :=
  le_bytes 4 (string_length body + 10) ++ le_bytes 4 id ++ le_bytes 4 type
    ++ ascii_bytes body ++ [x00; x00].

End Wire.


(** The zero bytes that follow the characters of a body, before the two
    closing ones: what its UTF-8 form takes beyond one byte a code unit. *)
Definition padding (body : js_string) : nat :=
  Z.to_nat (Buffer.byteLength body - string_length body).

(** ** The session over the socket

    The socket is an event emitter: it keeps what was written to it and the
    listeners of its 'data' and 'error' events. Promises live in a store, a
    promise is its index there. The script is single-threaded: a call of
    [send], and the delivery of one event to the listeners, each run to
    completion. An [async] function returns what it awaits, so its promise
    settles as the awaited one does, and the two are one promise here. *)

Inductive js_value : Type :=
  | VPacket (packet : PacketStructure)   (* a PacketStructure object *)
  | VString (s : js_string).             (* a string *)

Inductive promise_state : Type :=
  | Pending
  | Fulfilled (v : js_value)
  | Rejected (e : js_error).

(** The closures attached to 'data': the one [send] creates, over the
    [resolve] of its promise. *)
Inductive data_listener : Type :=
  | SendData (p : nat).

(** The closures attached to 'error': the one of [rcon_create_connection],
    over the [reject] of the connection promise, and the one [send] creates. *)
Inductive error_listener : Type :=
  | ConnectError
  | SendError (p : nat).

Record World : Type := mkWorld {
  written : list (list byte);        (* arguments of connection.write, in order *)
  data_listeners : list data_listener;
  error_listeners : list error_listener;
  promises : list promise_state;
  invoked : list (data_listener * list byte);  (* calls of 'data' listeners *)
  uncaught : list js_error;          (* exceptions that left a listener *)
}.

(** [connection.write(packet)] *)
Definition write (packet : list byte) (w : World) : World :=
  mkWorld (written w ++ [packet]) (data_listeners w) (error_listeners w)
          (promises w) (invoked w) (uncaught w).

(** [connection.removeAllListeners('data')] *)
Definition removeAllListeners_data (w : World) : World :=
  mkWorld (written w) [] (error_listeners w) (promises w) (invoked w) (uncaught w).

(** [connection.removeAllListeners('error')] *)
Definition removeAllListeners_error (w : World) : World :=
  mkWorld (written w) (data_listeners w) [] (promises w) (invoked w) (uncaught w).

(** [connection.on('data', l)] *)
Definition on_data (l : data_listener) (w : World) : World :=
  mkWorld (written w) (data_listeners w ++ [l]) (error_listeners w)
          (promises w) (invoked w) (uncaught w).

(** [connection.on('error', l)] *)
Definition on_error (l : error_listener) (w : World) : World :=
  mkWorld (written w) (data_listeners w) (error_listeners w ++ [l])
          (promises w) (invoked w) (uncaught w).

Definition set_promises (ps : list promise_state) (w : World) : World :=
  mkWorld (written w) (data_listeners w) (error_listeners w) ps (invoked w) (uncaught w).

(** [new Promise(...)]: a fresh pending promise. *)
Definition new_promise (w : World) : nat * World :=
  (length (promises w), set_promises (promises w ++ [Pending]) w).

(** A settled promise ignores [resolve] and [reject]. *)
Definition settle (p : nat) (st : promise_state) (w : World) : World :=
  match promises w !! p with
  | Some Pending => set_promises (<[p := st]> (promises w)) w
  | _ => w
  end.

Definition resolve (p : nat) (v : js_value) : World -> World := settle p (Fulfilled v).
Definition reject (p : nat) (e : js_error) : World -> World := settle p (Rejected e).

Definition log_call (l : data_listener) (data : list byte) (w : World) : World :=
  mkWorld (written w) (data_listeners w) (error_listeners w) (promises w)
          (invoked w ++ [(l, data)]) (uncaught w).

Definition log_uncaught (e : js_error) (w : World) : World :=
  mkWorld (written w) (data_listeners w) (error_listeners w) (promises w)
          (invoked w) (uncaught w ++ [e]).

(** [send(packet)] *)
Definition send (packet : list byte) (w : World) : nat * World :=
  let w := write packet w in
  let '(p, w) := new_promise w in
  let w := removeAllListeners_data w in
  let w := removeAllListeners_error w in
  let w := on_data (SendData p) w in
  let w := on_error (SendError p) w in
  (p, w).

(** The promise of an [async] function whose body raised. *)
Definition rejected (e : js_error) (w : World) : nat * World :=
  let '(p, w) := new_promise w in (p, reject p e w).

(** [auth(password)] *)
Definition auth (password : js_string) (w : World) : nat * World :=
  match rcon_create_packet_structure 10 PACKET_TYPES.SERVERDATA_AUTH password with
  | Ok packet => send packet w
  | Throw e => rejected e w
  end.

(** [crypto.randomInt(max)]: an integer of [0, max), here cut out of the
    draw that the generator accepts. *)
Definition randomInt (max draw : Z) : Z := draw mod max.

(** [command(name)]; [draw] is what the random generator delivers. *)
Definition command (name : js_string) (draw : Z) (w : World) : nat * World :=
  match rcon_create_packet_structure (randomInt 10000 draw)
          PACKET_TYPES.SERVERDATA_EXECCOMMAND name with
  | Ok packet => send packet w
  | Throw e => rejected e w
  end.

(** The check on the password in the 'data' listener of [send]. *)
Definition wrong_password (packet : PacketStructure) : bool :=
  (type packet =? 2) && (id packet =? -1).

(** The 'data' listener of [send]: the world it leaves and the exception it
    raises, if any. *)
Definition call_data (l : data_listener) (data : list byte) (w : World)
  : World * option js_error :=
  match l with
  | SendData p =>
      match rcon_get_packet_structure data with
      | Throw e => (w, Some e)
      | Ok packet =>
          if wrong_password packet then (w, Some (Error "Wrong RCON password!"))
          else (resolve p (VPacket packet) w, None)
      end
  end.

Definition call_error (l : error_listener) (e : js_error) (w : World) : World :=
  match l with
  | ConnectError => w          (* the connection promise is settled already *)
  | SendError p => reject p e w
  end.

(** [emit('data', data)]: the listeners in the order they were attached; an
    exception ends the round and leaves [emit]. *)
Fixpoint emit_data (ls : list data_listener) (data : list byte) (w : World)
  : World * option js_error :=
  match ls with
  | [] => (w, None)
  | l :: ls' =>
      match call_data l data (log_call l data w) with
      | (w', None) => emit_data ls' data w'
      | (w', Some e) => (w', Some e)
      end
  end.

Definition emit_error (ls : list error_listener) (e : js_error) (w : World) : World :=
  fold_left (fun w l => call_error l e w) ls w.

(** What the event loop and the caller do to the session. By default node
    ends the process at the first uncaught exception; the log [uncaught]
    keeps them all, and a run of the script is the part before the first.
    A socket that never had a 'data' listener does not flow and emits no
    'data': it keeps the bytes until the first listener is attached. *)
Inductive event : Type :=
  | Send (packet : list byte)               (* a call of send *)
  | Auth (password : js_string)             (* a call of auth *)
  | Command (name : js_string) (draw : Z)   (* a call of command *)
  | Data (chunk : list byte)                (* the socket emits 'data' *)
  | SocketFailure (e : js_error).           (* the socket emits 'error' *)

Definition step (w : World) (ev : event) : World :=
  match ev with
  | Send packet => snd (send packet w)
  | Auth password => snd (auth password w)
  | Command name draw => snd (command name draw w)
  | Data chunk =>
      match emit_data (data_listeners w) chunk w with
      | (w', None) => w'
      | (w', Some e) => log_uncaught e w'
      end
  | SocketFailure e =>
      match error_listeners w with
      | [] => log_uncaught e w          (* an unhandled 'error' event is raised *)
      | ls => emit_error ls e w
      end
  end.

Definition run (w : World) (evs : list event) : World := fold_left step evs w.

(** The session as [rcon_connect] returns it. *)
Definition connected : World := mkWorld [] [] [ConnectError] [] [] [].

(** The state of a promise; one that was never created is [None]. *)
Definition state_of (p : nat) (w : World) : option promise_state := promises w !! p.

(** ** Packets of a server, for the examples *)

(** [{size: 10, id: -1, type: 2, body: ''}]: the answer to a wrong password. *)
Definition auth_failure_chunk : list byte :=
  [x0a; x00; x00; x00; xff; xff; xff; xff; x02; x00; x00; x00; x00; x00].

(** [{size: 14, id: 4242, type: 0, body: 'pong'}] *)
Definition pong_chunk : list byte :=
  [x0e; x00; x00; x00; x92; x10; x00; x00; x00; x00; x00; x00;
   x70; x6f; x6e; x67; x00; x00].

(** [{size: 12, id: 7, type: 0, body: 'ok'}] *)
Definition ok_chunk : list byte :=
  [x0c; x00; x00; x00; x07; x00; x00; x00; x00; x00; x00; x00; x6f; x6b; x00; x00].

(** A pending promise that no listener of the socket settles any more. *)
Definition abandoned (p : nat) (w : World) : Prop :=
  state_of p w = Some Pending
  /\ (SendData p ∉ data_listeners w)
  /\ (SendError p ∉ error_listeners w).

(** The packets that an event makes the session write: one for a call
    whose arguments encode, none for what the socket emits. *)
Definition request_of (ev : event) : list (list byte) :=
  match ev with
  | Send packet => [packet]
  | Auth password =>
      match rcon_create_packet_structure 10 PACKET_TYPES.SERVERDATA_AUTH password with
      | Ok packet => [packet]
      | Throw _ => []
      end
  | Command name draw =>
      match rcon_create_packet_structure (randomInt 10000 draw)
              PACKET_TYPES.SERVERDATA_EXECCOMMAND name with
      | Ok packet => [packet]
      | Throw _ => []
      end
  | Data _ | SocketFailure _ => []
  end.

(** The listeners of one call of [send], or those of the fresh connection. *)
Definition listeners_paired (w : World) : Prop :=
  (data_listeners w = [] /\ error_listeners w = [ConnectError])
  \/ (exists p, data_listeners w = [SendData p] /\ error_listeners w = [SendError p]
                /\ is_Some (state_of p w)).

(** What a promise may be fulfilled with: a packet structure that passed the
    check on the password. *)
Definition accepted (v : js_value) : Prop :=
  match v with
  | VPacket packet => wrong_password packet = false /\ is_ascii (body packet)
  | VString _ => False
  end.

(** ** utils: [wait] and the timers of the event loop

    [wait(ms, cb)] returns a promise that a timer resolves after it has
    called [cb]. The callback acts on the state of the program that
    passes it, and may raise. The loop keeps a clock in milliseconds and the
    timers that are set; time passes, and a timer that is due expires, in
    any order the loop picks. *)

Module Utils.

Section Timers.

Context {State : Type}.

Definition callback : Type := State -> State * option js_error.

(** [() => undefined] *)
Definition noop : callback := fun s => (s, None).

Definition TIMEOUT_MAX : Z := 2 ^ 31 - 1.

(** The delay [setTimeout] keeps: one millisecond unless the delay given
    lies between 1 and [TIMEOUT_MAX]. *)
Definition timeout_delay (ms : Z) : Z :=
  if (1 <=? ms) && (ms <=? TIMEOUT_MAX) then ms else 1.

(** The promise of [wait]: pending, or fulfilled with [undefined]. *)
Inductive wait_state : Type :=
  | Waiting
  | Resolved.

(** A timer set by [wait]: when it is due, the callback of the closure
    [() => { cb(); resolve(); }] and the promise its [resolve] belongs to. *)
Record timer : Type := mkTimer {
  due : Z;
  timer_cb : callback;
  timer_promise : nat;
}.

Record Loop : Type := mkLoop {
  now : Z;
  timers : list timer;
  waits : list wait_state;     (* the promises of the calls of wait *)
  program : State;                 (* what the callbacks act on *)
  ran : list nat;              (* the promise of every closure run, in order *)
  thrown : list js_error;      (* exceptions that left a closure *)
}.

(** [wait(ms, cb)]; [None] is an argument left out. *)
Definition wait (ms : option Z) (cb : option callback) (l : Loop) : nat * Loop :=
  let ms := default 1000 ms in
  let cb := default noop cb in
  let p := length (waits l) in
  (p, mkLoop (now l) (timers l ++ [mkTimer (now l + timeout_delay ms) cb p])
        (waits l ++ [Waiting]) (program l) (ran l) (thrown l)).

(** The closure of the timer: [cb()], then [resolve()] unless [cb] raised. *)
Definition fire (t : timer) (l : Loop) : Loop :=
  match timer_cb t (program l) with
  | (s, None) =>
      mkLoop (now l) (timers l) (<[timer_promise t := Resolved]> (waits l)) s
        (ran l ++ [timer_promise t]) (thrown l)
  | (s, Some e) =>
      mkLoop (now l) (timers l) (waits l) s (ran l ++ [timer_promise t])
        (thrown l ++ [e])
  end.

Inductive tick : Type :=
  | Elapse (dt : Z)                                   (* time passes *)
  | Expire (k : nat)                                  (* the loop runs timer k *)
  | Wait (ms : option Z) (cb : option callback).      (* the program calls wait *)

Definition advance (l : Loop) (ev : tick) : Loop :=
  match ev with
  | Elapse dt =>
      if dt <? 0 then l
      else mkLoop (now l + dt) (timers l) (waits l) (program l) (ran l) (thrown l)
  | Expire k =>
      match timers l !! k with
      | Some t =>
          if due t <=? now l
          then fire t (mkLoop (now l) (delete k (timers l)) (waits l) (program l)
                         (ran l) (thrown l))
          else l
      | None => l
      end
  | Wait ms cb => snd (wait ms cb l)
  end.

Definition elapse (l : Loop) (evs : list tick) : Loop := fold_left advance evs l.

(** Every timer, and every closure that has run, belongs to a promise that
    exists. *)
Definition timers_known (l : Loop) : Prop :=
  Forall (fun t => (timer_promise t < length (waits l))%nat) (timers l)
  /\ Forall (fun q => (q < length (waits l))%nat) (ran l).

(** How often the closure of promise [p] has run. *)
Definition runs (p : nat) (l : Loop) : nat := count_occ Nat.eq_dec (ran l) p.

Definition started (s : State) : Loop := mkLoop 0 [] [] s [] [].

(** The call of [wait] with promise [p], callback [c] and timer due at [D],
    as a later loop shows it: either its timer is set, alone for [p], and
    its closure has not run; or the timer is gone, the closure has run once,
    not before [D], and the promise is resolved unless [c] raised. *)
Definition tracked (p : nat) (D : Z) (c : callback) (l : Loop) : Prop :=
  timers_known l /\ (p < length (waits l))%nat
  /\ ((waits l !! p = Some Waiting /\ runs p l = 0%nat
       /\ exists k, timers l !! k = Some (mkTimer D c p)
            /\ forall j t, timers l !! j = Some t -> timer_promise t = p -> j = k)
      \/ (runs p l = 1%nat /\ D <= now l
          /\ Forall (fun t => timer_promise t <> p) (timers l)
          /\ exists s, (waits l !! p = Some Resolved /\ (c s).2 = None)
                       \/ (waits l !! p = Some Waiting /\ (c s).2 <> None))).

End Timers.

(** For the examples: a program that counts its callbacks, and a callback
    that raises. *)
Definition count_up : @callback nat := fun n => (S n, None).
Definition raise : @callback nat := fun n => (n, Some (Error "boom")).

End Utils.

(** ** Proof steps that recur *)

(** Offsets 0 to 3 inside a field, as list indices. *)
Ltac small_index :=
  change (0 <? 0) with false; change (1 <? 0) with false;
  change (2 <? 0) with false; change (3 <? 0) with false;
  change (Z.to_nat 0) with 0%nat; change (Z.to_nat 1) with 1%nat;
  change (Z.to_nat 2) with 2%nat; change (Z.to_nat 3) with 3%nat.

(** Closes the side conditions on string literals. *)
Ltac literal :=
  unfold is_ascii, is_int32, INT32_MIN, INT32_MAX, MAX_STRING_LENGTH, string_length, str;
  cbn; repeat constructor; lia.

(** * Properties of the codec *)

Section Bytes.

Lemma byte_to_Z_range (b : byte) : 0 <= byte_to_Z b < 256.
Proof.
  unfold byte_to_Z. pose proof (Byte.to_N_bounded b). lia.
Qed.

Lemma byte_to_of_Z (z : Z) : byte_to_Z (byte_of_Z z) = z mod 256.
Proof.
  unfold byte_to_Z, byte_of_Z.
  assert (Hr : 0 <= z mod 256 < 256) by (apply Z.mod_pos_bound; lia).
  destruct (Byte.of_N (Z.to_N (z mod 256))) as [b|] eqn:E.
  - apply Byte.to_of_N in E. simpl. rewrite E. lia.
  - apply Byte.of_N_None_iff in E. lia.
Qed.

Lemma byte_of_to_Z (b : byte) : byte_of_Z (byte_to_Z b) = b.
Proof.
  unfold byte_of_Z, byte_to_Z.
  pose proof (Byte.to_N_bounded b).
  rewrite Z.mod_small by lia.
  rewrite N2Z.id, Byte.of_to_N. reflexivity.
Qed.

Lemma byte_of_Z_0 : byte_of_Z 0 = x00.
Proof. reflexivity. Qed.

End Bytes.

Section Int32.

Lemma le_int32_le_bytes (v : Z) :
  is_int32 v -> Wire.le_int32 (Wire.le_bytes 4 v) = v.
Proof.
  unfold is_int32, INT32_MIN, INT32_MAX, Wire.le_int32, to_int32.
  intros Hv. cbn [Wire.le_bytes Wire.le_unsigned].
  rewrite !byte_to_of_Z.
  change (2 ^ 31) with 2147483648 in *. change (2 ^ 32) with 4294967296.
  Z.div_mod_to_equations. lia.
Qed.

Lemma byte_of_Z_mod (a b : Z) : a mod 256 = b mod 256 -> byte_of_Z a = byte_of_Z b.
Proof. unfold byte_of_Z. intros ->. reflexivity. Qed.

(** The three unsigned shifts of [writeInt32LE] produce the bytes of the
    two's complement representation. *)
Lemma ushr_bytes (v : Z) :
  byte_of_Z (ushr v 8) = byte_of_Z (v / 256)
  /\ byte_of_Z (ushr (ushr v 8) 8) = byte_of_Z (v / 256 / 256)
  /\ byte_of_Z (ushr (ushr (ushr v 8) 8) 8) = byte_of_Z (v / 256 / 256 / 256).
Proof.
  unfold ushr, to_uint32. rewrite !Z.shiftr_div_pow2 by lia.
  change (2 ^ 8) with 256. change (2 ^ 32) with 4294967296.
  repeat split; apply byte_of_Z_mod; Z.div_mod_to_equations; lia.
Qed.

(** The sum [readInt32LE] returns is the signed value of the four bytes. *)
Lemma read_sum (b0 b1 b2 b3 : byte) :
  byte_to_Z b0 + byte_to_Z b1 * 2 ^ 8 + byte_to_Z b2 * 2 ^ 16 + shl (byte_to_Z b3) 24
  = Wire.le_int32 [b0; b1; b2; b3].
Proof.
  unfold Wire.le_int32, shl, to_int32. cbn [Wire.le_unsigned].
  rewrite Z.shiftl_mul_pow2 by lia.
  pose proof (byte_to_Z_range b0). pose proof (byte_to_Z_range b1).
  pose proof (byte_to_Z_range b2). pose proof (byte_to_Z_range b3).
  change (2 ^ 31) with 2147483648. change (2 ^ 32) with 4294967296.
  change (2 ^ 8) with 256. change (2 ^ 16) with 65536. change (2 ^ 24) with 16777216.
  Z.div_mod_to_equations. lia.
Qed.

Lemma le_int32_range (bs : list byte) : is_int32 (Wire.le_int32 bs).
Proof.
  unfold is_int32, INT32_MIN, INT32_MAX, Wire.le_int32, to_int32.
  change (2 ^ 31) with 2147483648. change (2 ^ 32) with 4294967296.
  Z.div_mod_to_equations. lia.
Qed.

End Int32.

Section BufferAccess.

Implicit Types (pre post l : list byte) (k o v : Z).

Lemma get_skip pre l o k :
  o = Z.of_nat (length pre) -> 0 <= k ->
  Buffer.get (pre ++ l) (o + k) = Buffer.get l k.
Proof.
  intros -> Hk. unfold Buffer.get.
  destruct (Z.ltb_spec (Z.of_nat (length pre) + k) 0); [lia|].
  destruct (Z.ltb_spec k 0); [lia|].
  replace (Z.to_nat (Z.of_nat (length pre) + k)) with (length pre + Z.to_nat k)%nat by lia.
  rewrite lookup_app_r by lia.
  replace (length pre + Z.to_nat k - length pre)%nat with (Z.to_nat k) by lia.
  reflexivity.
Qed.

Lemma set_skip pre l o k v :
  o = Z.of_nat (length pre) -> 0 <= k ->
  Buffer.set (pre ++ l) (o + k) v = pre ++ Buffer.set l k v.
Proof.
  intros -> Hk. unfold Buffer.set.
  destruct (Z.ltb_spec (Z.of_nat (length pre) + k) 0); [lia|].
  destruct (Z.ltb_spec k 0); [lia|].
  replace (Z.to_nat (Z.of_nat (length pre) + k)) with (length pre + Z.to_nat k)%nat by lia.
  apply insert_app_r.
Qed.

Lemma get_at pre l o :
  o = Z.of_nat (length pre) -> Buffer.get (pre ++ l) o = Buffer.get l 0.
Proof. intros Ho. rewrite <- (Z.add_0_r o) at 1. apply get_skip; [done | lia]. Qed.

Lemma set_at pre l o v :
  o = Z.of_nat (length pre) -> Buffer.set (pre ++ l) o v = pre ++ Buffer.set l 0 v.
Proof. intros Ho. rewrite <- (Z.add_0_r o) at 1. apply set_skip; [done | lia]. Qed.

Lemma writeInt32LE_at pre (b0 b1 b2 b3 : byte) post v o :
  o = Z.of_nat (length pre) -> is_int32 v ->
  Buffer.writeInt32LE (pre ++ b0 :: b1 :: b2 :: b3 :: post) v o
  = Ok (pre ++ Wire.le_bytes 4 v ++ post).
Proof.
  intros Ho [Hlo Hhi]. unfold Buffer.writeInt32LE, Buffer.checkInt.
  destruct (Z.gtb_spec v INT32_MAX); [lia|].
  destruct (Z.ltb_spec v INT32_MIN); [lia|].
  rewrite get_at, get_skip by (done || lia).
  rewrite set_at by done.
  rewrite !set_skip by (done || lia).
  destruct (ushr_bytes v) as (E1 & E2 & E3).
  unfold Buffer.get, Buffer.set. small_index.
  cbn [orb lookup list_lookup fmap option_fmap option_map mbind result_bind
       insert list_insert Wire.le_bytes app].
  rewrite E1, E2, E3. reflexivity.
Qed.

Lemma writeInt32LE_at_0 (b0 b1 b2 b3 : byte) post v :
  is_int32 v ->
  Buffer.writeInt32LE (b0 :: b1 :: b2 :: b3 :: post) v 0 = Ok (Wire.le_bytes 4 v ++ post).
Proof. intros Hv. apply (writeInt32LE_at [] b0 b1 b2 b3 post v 0); done. Qed.

Lemma readInt32LE_at pre (b0 b1 b2 b3 : byte) post o :
  o = Z.of_nat (length pre) ->
  Buffer.readInt32LE (pre ++ b0 :: b1 :: b2 :: b3 :: post) o
  = Ok (Wire.le_int32 [b0; b1; b2; b3]).
Proof.
  intros Ho. unfold Buffer.readInt32LE.
  rewrite get_at, !get_skip by (done || lia).
  unfold Buffer.get. small_index.
  cbn [lookup list_lookup fmap option_fmap option_map default from_option Datatypes.id].
  rewrite read_sum. reflexivity.
Qed.

(** Out of bounds, [readInt32LE] raises. *)
Lemma readInt32LE_short (buf : Buffer.t) o :
  0 <= o -> Buffer.length buf < o + 4 ->
  Buffer.readInt32LE buf o = Throw (RangeError "ERR_OUT_OF_RANGE").
Proof.
  intros Ho Hlen. unfold Buffer.readInt32LE, Buffer.get, Buffer.length in *.
  destruct (Z.ltb_spec o 0); [lia|].
  destruct (Z.ltb_spec (o + 3) 0); [lia|].
  rewrite (lookup_ge_None_2 buf (Z.to_nat (o + 3))) by lia.
  destruct (buf !! Z.to_nat o); reflexivity.
Qed.

(** [readInt32LE] raises nothing but the range error. *)
Lemma readInt32LE_cases (buf : list byte) o :
  (exists v, Buffer.readInt32LE buf o = Ok v)
  \/ Buffer.readInt32LE buf o = Throw (RangeError "ERR_OUT_OF_RANGE").
Proof.
  unfold Buffer.readInt32LE.
  destruct (Buffer.get buf o); [|by right].
  destruct (Buffer.get buf (o + 3)); [left; eauto | by right].
Qed.

End BufferAccess.

Section Strings.

Implicit Types (s : js_string).

Lemma utf8_length_ascii s : is_ascii s -> Buffer.utf8_length s = string_length s.
Proof.
  unfold string_length. induction 1 as [|c s Hc _ IH]; [reflexivity|].
  cbn [Buffer.utf8_length length].
  destruct (Z.ltb_spec c 128); lia.
Qed.

(** A code unit takes at least one byte of UTF-8 and at most three. *)
Lemma utf8_length_bounds s :
  string_length s <= Buffer.utf8_length s <= 3 * string_length s.
Proof.
  unfold string_length.
  induction s as [s IH] using (induction_ltof1 _ (@length Z)); unfold ltof in IH.
  destruct s as [|c [|d rest]].
  - simpl. lia.
  - simpl. repeat case_match; lia.
  - pose proof (IH (d :: rest) ltac:(simpl; lia)) as H1.
    pose proof (IH rest ltac:(simpl; lia)) as H2.
    remember (d :: rest) as s' eqn:Es'.
    cbn [Buffer.utf8_length length]. rewrite Es' at 1.
    cbn [length] in *. subst s'. cbn [length] in H1.
    cbn [length]. repeat case_match; lia.
Qed.

Lemma length_ascii_bytes s : length (Wire.ascii_bytes s) = length s.
Proof. apply length_map. Qed.

(** Seven-bit characters survive the byte encoding and the masking decoder. *)
Lemma ascii_chars_bytes s : is_ascii s -> Wire.ascii_chars (Wire.ascii_bytes s) = s.
Proof.
  unfold Wire.ascii_chars, Wire.ascii_bytes.
  induction 1 as [|c s Hc _ IH]; [reflexivity|].
  cbn [map]. rewrite IH. f_equal.
  rewrite byte_to_of_Z, Z.mod_small by lia.
  change 127 with (Z.ones 7). rewrite Z.land_ones by lia.
  apply Z.mod_small. change (2 ^ 7) with 128. lia.
Qed.

Lemma str_ascii_char (c : ascii) : 0 <= Z.of_N (N_of_ascii c) < 256.
Proof. pose proof (N_ascii_bounded c). lia. Qed.

End Strings.

Section BufferWrite.

Implicit Types (pre mid post : list byte) (s : js_string) (o : Z).

Lemma store_at pre mid post s o (max : nat) :
  o = Z.of_nat (length pre) -> length mid = length s -> (length s <= max)%nat ->
  Buffer.store (pre ++ mid ++ post) o s max = pre ++ Wire.ascii_bytes s ++ post.
Proof.
  revert pre mid o max. induction s as [|c s IH]; intros pre mid o max Ho Hmid Hmax.
  - destruct mid; [|discriminate]. destruct max; reflexivity.
  - destruct mid as [|m mid]; [discriminate|].
    destruct max as [|max]; [simpl in Hmax; lia|].
    cbn [Buffer.store Wire.ascii_bytes map app].
    rewrite set_at by done. unfold Buffer.set at 1. small_index.
    cbn [insert list_insert].
    rewrite (cons_middle (byte_of_Z c) pre), app_assoc.
    rewrite (IH (pre ++ [byte_of_Z c]) mid).
    + rewrite <- app_assoc. reflexivity.
    + rewrite length_app. simpl. lia.
    + simpl in Hmid. lia.
    + simpl in Hmax. lia.
Qed.

Lemma writeInt16LE_zero_at pre (b0 b1 : byte) post o :
  o = Z.of_nat (length pre) ->
  Buffer.writeInt16LE (pre ++ b0 :: b1 :: post) 0 o = Ok (pre ++ x00 :: x00 :: post).
Proof.
  intros Ho. unfold Buffer.writeInt16LE, Buffer.checkInt.
  change ((0 >? 2 ^ 15 - 1) || (0 <? - 2 ^ 15)) with false. cbv iota.
  rewrite get_at, get_skip by (done || lia).
  rewrite set_at by done. rewrite set_skip by (done || lia).
  unfold Buffer.get, Buffer.set. small_index.
  cbn [lookup list_lookup fmap option_fmap option_map mbind result_bind
       insert list_insert].
  reflexivity.
Qed.

End BufferWrite.

Section Encode.

Variables (id type : Z) (body : js_string).
Hypothesis id_int32 : is_int32 id.
Hypothesis type_int32 : is_int32 type.
Hypothesis size_int32 : Buffer.byteLength body + 10 <= INT32_MAX.

Lemma alloc_fields :
  Buffer.alloc (Buffer.byteLength body + 14)
  = x00 :: x00 :: x00 :: x00 :: x00 :: x00 :: x00 :: x00 :: x00 :: x00 :: x00 :: x00
      :: replicate (length body) x00 ++ replicate (padding body) x00 ++ [x00; x00].
Proof.
  unfold Buffer.alloc, padding, Buffer.byteLength, string_length.
  pose proof (utf8_length_bounds body) as Hb. unfold string_length in Hb.
  replace (Z.to_nat (Buffer.utf8_length body + 14))
    with (12 + (length body + (Z.to_nat (Buffer.utf8_length body - Z.of_nat (length body)) + 2)))%nat
    by lia.
  rewrite !replicate_add. reflexivity.
Qed.

(** The buffer the encoder returns, for any string: the three fields, the
    low byte of every code unit, one zero byte for each further byte that
    the UTF-8 form of the string would take, and the two zero bytes. *)
Lemma rcon_create_packet_structure_layout :
  rcon_create_packet_structure id type body
  = Ok (Wire.le_bytes 4 (Buffer.byteLength body + 10) ++ Wire.le_bytes 4 id
        ++ Wire.le_bytes 4 type ++ Wire.ascii_bytes body
        ++ replicate (padding body) x00 ++ [x00; x00]).
Proof.
  pose proof (utf8_length_bounds body) as Hb.
  unfold rcon_create_packet_structure. rewrite alloc_fields.
  replace (Buffer.byteLength body + 14 - 4) with (Buffer.byteLength body + 10) by lia.
  rewrite writeInt32LE_at_0.
  2:{ unfold is_int32, INT32_MIN, INT32_MAX, Buffer.byteLength, string_length in *. lia. }
  cbn [mbind result_bind].
  set (f1 := Wire.le_bytes 4 (Buffer.byteLength body + 10)).
  set (f2 := Wire.le_bytes 4 id). set (f3 := Wire.le_bytes 4 type).
  rewrite (writeInt32LE_at f1 x00 x00 x00 x00); [|reflexivity|done].
  cbn [mbind result_bind].
  rewrite (app_assoc f1 f2), (writeInt32LE_at (f1 ++ f2) x00 x00 x00 x00); [|reflexivity|done].
  cbn [mbind result_bind].
  rewrite (app_assoc (f1 ++ f2) f3).
  set (hdr := (f1 ++ f2) ++ f3).
  assert (Hhdr : length hdr = 12%nat) by reflexivity.
  assert (Hpad : Z.of_nat (padding body) = Buffer.byteLength body - string_length body)
    by (unfold padding, Buffer.byteLength; lia).
  unfold Buffer.write_ascii, Buffer.length.
  rewrite !length_app, !length_replicate, Hhdr.
  cbn [length]. unfold Buffer.byteLength, string_length in *.
  repeat match goal with
  | |- context [?a <? ?b] => destruct (Z.ltb_spec a b); [lia|]
  end.
  cbn [orb].
  destruct (Z.gtb_spec (Buffer.utf8_length body + 14 - 2)
              (Z.of_nat (12 + (length body + (padding body + 2))) - 12)); [|lia].
  rewrite store_at; [|rewrite Hhdr; reflexivity|apply length_replicate|lia].
  cbn [mbind result_bind].
  rewrite (app_assoc (Wire.ascii_bytes body)), (app_assoc hdr).
  rewrite writeInt16LE_zero_at.
  - unfold hdr. rewrite <- !app_assoc. reflexivity.
  - rewrite !length_app, length_ascii_bytes, length_replicate, Hhdr. lia.
Qed.

End Encode.

Section Decode.

Implicit Types (buffer : list byte).

(** What [toString('ascii', 12, length - 2)] returns on any buffer. *)
Lemma toString_ascii_body buffer :
  Buffer.toString_ascii buffer 12 (Buffer.length buffer - 2)
  = Wire.ascii_chars (Wire.slice buffer 12 (length buffer - 2)).
Proof.
  unfold Buffer.toString_ascii, Buffer.ascii_slice, Buffer.length,
    Wire.ascii_chars, Wire.slice.
  change (0 <? 12) with true. change (12 <=? 0) with false. cbv iota. cbn [andb].
  destruct (Z.leb_spec (Z.of_nat (length buffer)) 12) as [Hle|Hgt].
  - replace (length buffer - 2 - 12)%nat with 0%nat by lia. reflexivity.
  - destruct (Z.ltb_spec (Z.of_nat (length buffer)) (Z.of_nat (length buffer) - 2)); [lia|].
    destruct (Z.leb_spec (Z.of_nat (length buffer) - 2) 12).
    + replace (length buffer - 2 - 12)%nat with 0%nat by lia. reflexivity.
    + replace (Z.to_nat (Z.of_nat (length buffer) - 2 - 12))
        with (length buffer - 2 - 12)%nat by lia.
      reflexivity.
Qed.

(** The packet the decoder returns on any buffer of twelve bytes or more. *)
Lemma rcon_get_packet_structure_fields buffer :
  12 <= Buffer.length buffer ->
  rcon_get_packet_structure buffer
  = Ok {| size := Wire.le_int32 (Wire.slice buffer 0 4);
          id := Wire.le_int32 (Wire.slice buffer 4 8);
          type := Wire.le_int32 (Wire.slice buffer 8 12);
          body := Wire.ascii_chars (Wire.slice buffer 12 (length buffer - 2)) |}.
Proof.
  intros Hlen. unfold rcon_get_packet_structure.
  rewrite toString_ascii_body. unfold Buffer.length in Hlen.
  do 12 (destruct buffer as [|? buffer]; [simpl in Hlen; lia|]).
  rename buffer into rest.
  pose proof (readInt32LE_at [] b b0 b1 b2
                (b3 :: b4 :: b5 :: b6 :: b7 :: b8 :: b9 :: b10 :: rest) 0 eq_refl) as E0.
  pose proof (readInt32LE_at [b; b0; b1; b2] b3 b4 b5 b6
                (b7 :: b8 :: b9 :: b10 :: rest) 4 eq_refl) as E4.
  pose proof (readInt32LE_at [b; b0; b1; b2; b3; b4; b5; b6] b7 b8 b9 b10 rest 8 eq_refl)
    as E8.
  cbn [app] in E0, E4, E8. rewrite E0, E4, E8. reflexivity.
Qed.

(** Below twelve bytes the decoder raises. *)
Lemma rcon_get_packet_structure_short buffer :
  Buffer.length buffer < 12 ->
  rcon_get_packet_structure buffer = Throw (RangeError "ERR_OUT_OF_RANGE").
Proof.
  intros Hlen. unfold rcon_get_packet_structure.
  rewrite (readInt32LE_short buffer 8) by lia.
  destruct (readInt32LE_cases buffer 0) as [[v ->]| ->]; [|reflexivity].
  destruct (readInt32LE_cases buffer 4) as [[v' ->]| ->]; reflexivity.
Qed.

End Decode.

Section Codec.

Implicit Types (id type : Z) (body s : js_string) (buffer : list byte).

(** No string of the language is too long for the size field. *)
Lemma string_size_int32 s :
  string_length s <= MAX_STRING_LENGTH -> Buffer.byteLength s + 10 <= INT32_MAX.
Proof.
  unfold MAX_STRING_LENGTH, INT32_MAX, Buffer.byteLength.
  pose proof (utf8_length_bounds s).
  change (2 ^ 29) with 536870912. change (2 ^ 31) with 2147483648. lia.
Qed.

Lemma padding_ascii s : is_ascii s -> padding s = 0%nat.
Proof.
  intros Hs. unfold padding, Buffer.byteLength. rewrite utf8_length_ascii by done. lia.
Qed.

(** On an ASCII body the encoder returns the frame of the protocol. *)
Lemma rcon_create_packet_structure_ascii id type body :
  is_int32 id -> is_int32 type -> is_ascii body ->
  string_length body <= MAX_STRING_LENGTH ->
  rcon_create_packet_structure id type body = Ok (Wire.frame id type body).
Proof.
  intros Hid Hty Hascii Hlen.
  rewrite rcon_create_packet_structure_layout by auto using string_size_int32.
  rewrite padding_ascii by done. unfold Wire.frame, Buffer.byteLength.
  rewrite utf8_length_ascii by done. reflexivity.
Qed.

Lemma length_frame id type body :
  Buffer.length (Wire.frame id type body) = string_length body + 14.
Proof.
  unfold Buffer.length, Wire.frame, string_length.
  rewrite !length_app, length_ascii_bytes. cbn [Wire.le_bytes length]. lia.
Qed.

(** The fields of a buffer that starts with three four-byte fields. *)
Lemma slices_of_fields (f1 f2 f3 payload : list byte) :
  length f1 = 4%nat -> length f2 = 4%nat -> length f3 = 4%nat ->
  Wire.slice (f1 ++ f2 ++ f3 ++ payload) 0 4 = f1
  /\ Wire.slice (f1 ++ f2 ++ f3 ++ payload) 4 8 = f2
  /\ Wire.slice (f1 ++ f2 ++ f3 ++ payload) 8 12 = f3
  /\ drop 12 (f1 ++ f2 ++ f3 ++ payload) = payload.
Proof.
  intros H1 H2 H3. unfold Wire.slice.
  do 4 (destruct f1 as [|? f1]; [discriminate|]). destruct f1; [|discriminate].
  do 4 (destruct f2 as [|? f2]; [discriminate|]). destruct f2; [|discriminate].
  do 4 (destruct f3 as [|? f3]; [discriminate|]). destruct f3; [|discriminate].
  repeat split; reflexivity.
Qed.

Lemma length_le_bytes (n : nat) (v : Z) : length (Wire.le_bytes n v) = n.
Proof. revert v. induction n as [|n IH]; intros v; simpl; [done | by rewrite IH]. Qed.

(** Decoding any buffer the encoder returns: the size is the byte count after
    the size field, the id and the type are the ones encoded, and the body
    is the low seven bits of every byte between the fields and the last two
    bytes. *)
Lemma decode_layout id type body :
  is_int32 id -> is_int32 type -> Buffer.byteLength body + 10 <= INT32_MAX ->
  rcon_get_packet_structure
    (Wire.le_bytes 4 (Buffer.byteLength body + 10) ++ Wire.le_bytes 4 id
       ++ Wire.le_bytes 4 type ++ Wire.ascii_bytes body
       ++ replicate (padding body) x00 ++ [x00; x00])
  = Ok {| size := Buffer.byteLength body + 10; id := id; type := type;
          body := Wire.ascii_chars (Wire.ascii_bytes body ++ replicate (padding body) x00) |}.
Proof.
  intros Hid Hty Hsz.
  pose proof (utf8_length_bounds body) as Hb.
  set (payload := Wire.ascii_bytes body ++ replicate (padding body) x00 ++ [x00; x00]).
  set (buffer := _ ++ _).
  assert (Hlen : length buffer = (12 + (length body + padding body + 2))%nat).
  { unfold buffer, payload.
    rewrite !length_app, !length_le_bytes, length_ascii_bytes, length_replicate.
    simpl. lia. }
  rewrite rcon_get_packet_structure_fields by (unfold Buffer.length; lia).
  destruct (slices_of_fields (Wire.le_bytes 4 (Buffer.byteLength body + 10))
              (Wire.le_bytes 4 id) (Wire.le_bytes 4 type) payload)
    as (E1 & E2 & E3 & E4); try apply length_le_bytes.
  fold buffer in E1, E2, E3, E4.
  rewrite E1, E2, E3. unfold Wire.slice at 1. rewrite E4, Hlen.
  rewrite !le_int32_le_bytes; try done.
  2:{ unfold is_int32, INT32_MIN, Buffer.byteLength, string_length in *. lia. }
  do 2 f_equal. unfold payload. rewrite app_assoc.
  f_equal. apply take_app_length'.
  rewrite length_app, length_ascii_bytes, length_replicate. lia.
Qed.

End Codec.

Section CodecClaims.

Implicit Types (id type : Z) (body s : js_string) (buffer : list byte).

(** C1. Round trip: for every ASCII string [s] and all 32-bit integers [id]
    and [type], decoding the buffer that the encoder returns for
    [(id, type, s)] yields the packet whose size is [len(s) + 10], whose id
    and type are the ones given and whose body is [s]. *)
Theorem decode_encode_roundtrip id type s :
  is_ascii s -> string_length s <= MAX_STRING_LENGTH ->
  is_int32 id -> is_int32 type ->
  rcon_create_packet_structure id type s ≫= rcon_get_packet_structure
  = Ok {| size := string_length s + 10; id := id; type := type; body := s |}.
Proof.
  intros Hs Hlen Hid Hty.
  pose proof (string_size_int32 s Hlen) as Hsz.
  rewrite rcon_create_packet_structure_layout by done.
  cbn [mbind result_bind]. rewrite decode_layout by done.
  rewrite padding_ascii by done. cbn [replicate]. rewrite app_nil_r.
  rewrite ascii_chars_bytes by done.
  unfold Buffer.byteLength. rewrite utf8_length_ascii by done. reflexivity.
Qed.

Lemma decode_encode_roundtrip_witness :
  rcon_create_packet_structure 10 3 (str "hunter2") ≫= rcon_get_packet_structure
  = Ok {| size := 17; id := 10; type := 3; body := str "hunter2" |}.
Proof. apply (decode_encode_roundtrip 10 3 (str "hunter2")); literal. Defined.

(** C4. Layout: for all 32-bit integers [id] and [type] and every ASCII body,
    the encoded buffer has exactly [len(body) + 14] bytes; its first four
    bytes are the little-endian [len(body) + 10], which is the total length
    minus four; bytes 4 to 8 are the id, bytes 8 to 12 the type; the body
    follows, and right after it the buffer ends with two zero bytes. *)
Theorem encode_layout id type body :
  is_ascii body -> string_length body <= MAX_STRING_LENGTH ->
  is_int32 id -> is_int32 type ->
  exists buffer,
    rcon_create_packet_structure id type body = Ok buffer
    /\ Buffer.length buffer = string_length body + 14
    /\ Wire.slice buffer 0 4 = Wire.le_bytes 4 (string_length body + 10)
    /\ Wire.le_int32 (Wire.slice buffer 0 4) = Buffer.length buffer - 4
    /\ Wire.slice buffer 4 8 = Wire.le_bytes 4 id
    /\ Wire.slice buffer 8 12 = Wire.le_bytes 4 type
    /\ Wire.slice buffer 12 (12 + length body) = Wire.ascii_bytes body
    /\ drop (12 + length body) buffer = [x00; x00].
Proof.
  intros Hs Hlen Hid Hty. exists (Wire.frame id type body).
  split; [by apply rcon_create_packet_structure_ascii|].
  split; [apply length_frame|].
  destruct (slices_of_fields (Wire.le_bytes 4 (string_length body + 10))
              (Wire.le_bytes 4 id) (Wire.le_bytes 4 type)
              (Wire.ascii_bytes body ++ [x00; x00]))
    as (E1 & E2 & E3 & E4); try apply length_le_bytes.
  fold (Wire.frame id type body) in E1, E2, E3, E4.
  rewrite E1, E2, E3, length_frame.
  repeat split; try reflexivity.
  - rewrite le_int32_le_bytes; [lia|].
    pose proof (string_size_int32 body Hlen) as Hsz.
    unfold Buffer.byteLength in Hsz. rewrite utf8_length_ascii in Hsz by done.
    unfold is_int32, INT32_MIN, string_length in *. lia.
  - unfold Wire.slice. rewrite E4.
    apply take_app_length'. rewrite length_ascii_bytes. lia.
  - rewrite <- drop_drop, E4. apply drop_app_length'. by rewrite length_ascii_bytes.
Qed.

Lemma encode_layout_witness :
  exists buffer,
    rcon_create_packet_structure 7 2 (str "status") = Ok buffer
    /\ Buffer.length buffer = 20
    /\ Wire.slice buffer 0 4 = [x10; x00; x00; x00]
    /\ Wire.le_int32 (Wire.slice buffer 0 4) = Buffer.length buffer - 4
    /\ Wire.slice buffer 4 8 = [x07; x00; x00; x00]
    /\ Wire.slice buffer 8 12 = [x02; x00; x00; x00]
    /\ Wire.slice buffer 12 18 = Wire.ascii_bytes (str "status")
    /\ drop 18 buffer = [x00; x00].
Proof. apply (encode_layout 7 2 (str "status")); literal. Defined.

(** C5. For every buffer of twelve bytes or more, the decoder reads size, id
    and type as little-endian signed 32-bit integers at the offsets 0, 4 and
    8, and returns as body the bytes from offset 12 up to the length of the
    buffer minus 2, decoded as ASCII; the body does not depend on the size
    the first field declares. *)
Theorem decode_fixed_offsets buffer :
  12 <= Buffer.length buffer ->
  exists packet,
    rcon_get_packet_structure buffer = Ok packet
    /\ size packet = Wire.le_int32 (Wire.slice buffer 0 4)
    /\ id packet = Wire.le_int32 (Wire.slice buffer 4 8)
    /\ type packet = Wire.le_int32 (Wire.slice buffer 8 12)
    /\ body packet = Wire.ascii_chars (Wire.slice buffer 12 (length buffer - 2))
    /\ forall declared : list byte, length declared = 4%nat ->
         exists packet',
           rcon_get_packet_structure (declared ++ drop 4 buffer) = Ok packet'
           /\ size packet' = Wire.le_int32 declared
           /\ body packet' = body packet.
Proof.
  intros Hlen. eexists. split; [by apply rcon_get_packet_structure_fields|].
  cbn [size id type body]. repeat split.
  intros declared Hd. unfold Buffer.length in Hlen.
  assert (Hlen' : length (declared ++ drop 4 buffer) = length buffer)
    by (rewrite length_app, length_drop; lia).
  eexists. split.
  { apply rcon_get_packet_structure_fields. unfold Buffer.length. lia. }
  cbn [size body]. rewrite Hlen'. unfold Wire.slice. split.
  - cbn [drop]. f_equal. apply take_app_length'. lia.
  - do 2 f_equal. rewrite drop_app_ge by lia. rewrite drop_drop. f_equal. lia.
Qed.

Lemma decode_fixed_offsets_witness :
  exists packet,
    rcon_get_packet_structure
      [x0c; x00; x00; x00; xff; xff; xff; xff; x02; x00; x00; x00; x6f; x6b; x00; x00]
    = Ok packet
    /\ size packet = 12 /\ id packet = -1 /\ type packet = 2
    /\ body packet = str "ok".
Proof.
  destruct (decode_fixed_offsets
              [x0c; x00; x00; x00; xff; xff; xff; xff; x02; x00; x00; x00; x6f; x6b; x00; x00])
    as (packet & E & Hsize & Hid & Htype & Hbody & _).
  - vm_compute. discriminate.
  - exists packet. rewrite Hsize, Hid, Htype, Hbody. repeat split; try done.
Defined.

(** C10. For every buffer of twelve bytes or more the decoder returns a
    packet and raises nothing; the twelve bytes of the three fields exist,
    every character of the body is read from a byte of the buffer that lies
    between offset 12 and the last two bytes, whatever size the first field
    declares; a buffer of exactly 12 or 13 bytes gives the empty body. *)
Theorem decode_within_bounds buffer :
  12 <= Buffer.length buffer ->
  exists packet,
    rcon_get_packet_structure buffer = Ok packet
    /\ (forall i, 0 <= i < 12 -> is_Some (Buffer.get buffer i))
    /\ (forall (i : nat) (c : Z), body packet !! i = Some c ->
          (12 + i < length buffer - 2)%nat
          /\ exists b, buffer !! (12 + i)%nat = Some b /\ c = Z.land (byte_to_Z b) 127)
    /\ (forall declared : list byte, length declared = 4%nat ->
          exists packet',
            rcon_get_packet_structure (declared ++ drop 4 buffer) = Ok packet'
            /\ id packet' = id packet /\ type packet' = type packet
            /\ body packet' = body packet)
    /\ (Buffer.length buffer = 12 \/ Buffer.length buffer = 13 -> body packet = []).
Proof.
  intros Hlen. eexists. split; [by apply rcon_get_packet_structure_fields|].
  cbn [size id type body]. unfold Buffer.length in Hlen.
  split; [|split; [|split]].
  - intros i Hi. unfold Buffer.get.
    destruct (Z.ltb_spec i 0); [lia|].
    apply fmap_is_Some, lookup_lt_is_Some_2. lia.
  - intros i c Hc. unfold Wire.ascii_chars, Wire.slice in Hc.
    rewrite list_lookup_fmap in Hc.
    destruct (take _ _ !! i) as [b|] eqn:E; [|discriminate].
    apply lookup_take_Some in E as [E Hi]. rewrite lookup_drop in E.
    split; [lia|]. exists b. split; [done|]. by injection Hc as <-.
  - intros declared Hd.
    assert (Hlen' : length (declared ++ drop 4 buffer) = length buffer)
      by (rewrite length_app, length_drop; lia).
    eexists. split.
    { apply rcon_get_packet_structure_fields. unfold Buffer.length. lia. }
    cbn [id type body]. rewrite Hlen'. unfold Wire.slice.
    assert (Hd' : forall n, (4 <= n)%nat -> drop n (declared ++ drop 4 buffer) = drop n buffer).
    { intros n Hn. rewrite drop_app_ge by lia. rewrite drop_drop. f_equal. lia. }
    rewrite !Hd' by lia. done.
  - intros Hshort. unfold Buffer.length in Hshort. unfold Wire.slice.
    replace (length buffer - 2 - 12)%nat with 0%nat by lia. reflexivity.
Qed.

Lemma decode_within_bounds_witness :
  exists packet,
    rcon_get_packet_structure
      [x0a; x00; x00; x7f; x0a; x00; x00; x00; x00; x00; x00; x00; x41] = Ok packet
    /\ body packet = [].
Proof.
  destruct (decode_within_bounds
              [x0a; x00; x00; x7f; x0a; x00; x00; x00; x00; x00; x00; x00; x41])
    as (packet & E & _ & _ & _ & Hshort).
  - vm_compute. discriminate.
  - exists packet. split; [exact E|]. apply Hshort. right. reflexivity.
Defined.

End CodecClaims.

(** * Properties of the session *)

Section Promises.

Implicit Types (p q : nat) (st : promise_state) (w : World).

Lemma settle_frame q st w :
  written (settle q st w) = written w
  /\ data_listeners (settle q st w) = data_listeners w
  /\ error_listeners (settle q st w) = error_listeners w
  /\ invoked (settle q st w) = invoked w
  /\ uncaught (settle q st w) = uncaught w
  /\ length (promises (settle q st w)) = length (promises w).
Proof.
  unfold settle. destruct (promises w !! q) as [[]|]; cbn; rewrite ?length_insert; done.
Qed.

Lemma state_of_settle_ne p q st w :
  p <> q -> state_of p (settle q st w) = state_of p w.
Proof.
  intros Hne. unfold state_of, settle.
  destruct (promises w !! q) as [[]|]; cbn; try done.
  by apply list_lookup_insert_ne.
Qed.

Lemma state_of_settle_pending p st w :
  state_of p w = Some Pending -> state_of p (settle p st w) = Some st.
Proof.
  unfold state_of, settle. intros E. rewrite E. cbn.
  apply list_lookup_insert_eq. by eapply lookup_lt_Some.
Qed.

(** Settling is final. *)
Lemma state_of_settle_settled p q st st' w :
  state_of p w = Some st' -> st' <> Pending -> state_of p (settle q st w) = Some st'.
Proof.
  intros E Hst'. destruct (decide (p = q)) as [->|Hne].
  - unfold state_of, settle in *. rewrite E. by destruct st'.
  - by rewrite state_of_settle_ne.
Qed.

Lemma state_of_new_promise p w :
  (p < length (promises w))%nat ->
  state_of p (snd (new_promise w)) = state_of p w.
Proof. intros Hp. unfold state_of. cbn. by apply lookup_app_l. Qed.

Lemma state_of_lt p st w : state_of p w = Some st -> (p < length (promises w))%nat.
Proof. apply lookup_lt_Some. Qed.

End Promises.

Section Session.

Implicit Types (p q : nat) (w : World) (packet chunk : list byte).

(** What a call of [send] leaves: the packet written last, a fresh pending
    promise, and its two listeners alone on the socket. *)
Lemma send_world packet w :
  send packet w
  = (length (promises w),
     mkWorld (written w ++ [packet]) [SendData (length (promises w))]
       [SendError (length (promises w))] (promises w ++ [Pending])
       (invoked w) (uncaught w)).
Proof. reflexivity. Qed.

Lemma state_of_send_new packet w :
  state_of (fst (send packet w)) (snd (send packet w)) = Some Pending.
Proof.
  rewrite send_world. unfold state_of. cbn.
  rewrite lookup_app_r by lia. by rewrite Nat.sub_diag.
Qed.

Lemma state_of_send_old p packet w :
  (p < length (promises w))%nat -> state_of p (snd (send packet w)) = state_of p w.
Proof. intros Hp. rewrite send_world. unfold state_of. cbn. by apply lookup_app_l. Qed.

Lemma rejected_frame e w :
  written (snd (rejected e w)) = written w
  /\ data_listeners (snd (rejected e w)) = data_listeners w
  /\ error_listeners (snd (rejected e w)) = error_listeners w
  /\ invoked (snd (rejected e w)) = invoked w
  /\ uncaught (snd (rejected e w)) = uncaught w.
Proof.
  unfold rejected, reject. cbn [new_promise snd].
  destruct (settle_frame (length (promises w)) (Rejected e)
              (set_promises (promises w ++ [Pending]) w)) as (E1 & E2 & E3 & E4 & E5 & _).
  rewrite E1, E2, E3, E4, E5. done.
Qed.

Lemma state_of_rejected_old p e w :
  (p < length (promises w))%nat -> state_of p (snd (rejected e w)) = state_of p w.
Proof.
  intros Hp. unfold rejected, reject. cbn.
  rewrite state_of_settle_ne by lia.
  unfold state_of. cbn. by apply lookup_app_l.
Qed.

(** One round of 'data' listeners leaves the socket as it was. *)
Lemma emit_data_frame (ls : list data_listener) chunk w :
  written (emit_data ls chunk w).1 = written w
  /\ data_listeners (emit_data ls chunk w).1 = data_listeners w
  /\ error_listeners (emit_data ls chunk w).1 = error_listeners w
  /\ length (promises (emit_data ls chunk w).1) = length (promises w).
Proof.
  revert w. induction ls as [|[q] ls IH]; intros w; [done|].
  cbn [emit_data call_data].
  destruct (rcon_get_packet_structure chunk) as [packet|e]; [|done].
  destruct (wrong_password packet); [done|].
  destruct (IH (resolve q (VPacket packet) (log_call (SendData q) chunk w)))
    as (E1 & E2 & E3 & E4).
  destruct (settle_frame q (Fulfilled (VPacket packet)) (log_call (SendData q) chunk w))
    as (F1 & F2 & F3 & _ & _ & F6).
  unfold resolve in *. rewrite E1, E2, E3, E4, F1, F2, F3, F6. done.
Qed.

Lemma emit_data_other p (ls : list data_listener) chunk w :
  SendData p ∉ ls -> state_of p (emit_data ls chunk w).1 = state_of p w.
Proof.
  revert w. induction ls as [|[q] ls IH]; intros w Hp; [done|].
  apply not_elem_of_cons in Hp as [Hq Hp].
  cbn [emit_data call_data].
  destruct (rcon_get_packet_structure chunk) as [packet|e]; [|done].
  destruct (wrong_password packet); [done|].
  rewrite IH by done. unfold resolve.
  rewrite state_of_settle_ne by congruence. done.
Qed.

Lemma emit_data_settled p st (ls : list data_listener) chunk w :
  state_of p w = Some st -> st <> Pending ->
  state_of p (emit_data ls chunk w).1 = Some st.
Proof.
  revert w. induction ls as [|[q] ls IH]; intros w E Hst; [done|].
  cbn [emit_data call_data].
  destruct (rcon_get_packet_structure chunk) as [packet|e]; [|done].
  destruct (wrong_password packet); [done|].
  apply IH; [|done]. unfold resolve. by apply state_of_settle_settled.
Qed.

Lemma emit_error_frame (ls : list error_listener) e w :
  written (emit_error ls e w) = written w
  /\ data_listeners (emit_error ls e w) = data_listeners w
  /\ error_listeners (emit_error ls e w) = error_listeners w
  /\ length (promises (emit_error ls e w)) = length (promises w).
Proof.
  revert w. induction ls as [|[|q] ls IH]; intros w; [done| apply IH |].
  cbn [emit_error fold_left call_error].
  destruct (IH (reject q e w)) as (E1 & E2 & E3 & E4).
  destruct (settle_frame q (Rejected e) w) as (F1 & F2 & F3 & _ & _ & F6).
  unfold emit_error, reject in *. rewrite E1, E2, E3, E4, F1, F2, F3, F6. done.
Qed.

Lemma emit_error_other p (ls : list error_listener) e w :
  SendError p ∉ ls -> state_of p (emit_error ls e w) = state_of p w.
Proof.
  revert w. induction ls as [|[|q] ls IH]; intros w Hp; [done| |].
  - apply not_elem_of_cons in Hp as [_ Hp]. by apply IH.
  - apply not_elem_of_cons in Hp as [Hq Hp].
    cbn [emit_error fold_left call_error]. unfold emit_error in IH.
    rewrite IH by done. unfold reject. rewrite state_of_settle_ne by congruence. done.
Qed.

Lemma emit_error_settled p st (ls : list error_listener) e w :
  state_of p w = Some st -> st <> Pending ->
  state_of p (emit_error ls e w) = Some st.
Proof.
  revert w. induction ls as [|[|q] ls IH]; intros w E Hst; [done| by apply IH |].
  cbn [emit_error fold_left call_error]. unfold emit_error in IH.
  apply IH; [|done]. unfold reject. by apply state_of_settle_settled.
Qed.

End Session.

Section Steps.

Implicit Types (p q : nat) (w : World) (ev : event) (evs : list event).

(** A call on the session, as a call of [send] or as a promise born
    rejected. *)
Lemma auth_cases password w :
  (exists packet,
     rcon_create_packet_structure 10 PACKET_TYPES.SERVERDATA_AUTH password = Ok packet
     /\ auth password w = send packet w)
  \/ (exists e, auth password w = rejected e w).
Proof.
  unfold auth. destruct (rcon_create_packet_structure _ _ _); [left|right]; eauto.
Qed.

Lemma command_cases name draw w :
  (exists packet,
     rcon_create_packet_structure (randomInt 10000 draw)
       PACKET_TYPES.SERVERDATA_EXECCOMMAND name = Ok packet
     /\ command name draw w = send packet w)
  \/ (exists e, command name draw w = rejected e w).
Proof.
  unfold command. destruct (rcon_create_packet_structure _ _ _); [left|right]; eauto.
Qed.

(** Every step is of one of three kinds. *)
Lemma step_cases w ev :
  (exists packet, step w ev = snd (send packet w))
  \/ (exists e, step w ev = snd (rejected e w))
  \/ (exists chunk, ev = Data chunk)
  \/ (exists e, ev = SocketFailure e).
Proof.
  destruct ev as [packet|password|name draw|chunk|e]; cbn [step].
  - left. eauto.
  - destruct (auth_cases password w) as [(packet & _ & ->)|(e & ->)]; eauto.
  - destruct (command_cases name draw w) as [(packet & _ & ->)|(e & ->)]; eauto.
  - right. right. left. eauto.
  - right. right. right. eauto.
Qed.

Lemma step_data_frame chunk w :
  data_listeners (step w (Data chunk)) = data_listeners w
  /\ error_listeners (step w (Data chunk)) = error_listeners w.
Proof.
  cbn [step]. destruct (emit_data_frame (data_listeners w) chunk w) as (_ & E2 & E3 & _).
  destruct (emit_data _ _ _) as [w' [e|]]; cbn in *; done.
Qed.

Lemma step_failure_frame e w :
  data_listeners (step w (SocketFailure e)) = data_listeners w
  /\ error_listeners (step w (SocketFailure e)) = error_listeners w.
Proof.
  cbn [step]. destruct (emit_error_frame (error_listeners w) e w) as (_ & E2 & E3 & _).
  destruct (error_listeners w) as [|l ls] eqn:E; cbn in *; [by rewrite E|].
  rewrite E2, E3. done.
Qed.

(** A settled promise keeps its state whatever happens next. *)
Lemma step_settled p st w ev :
  state_of p w = Some st -> st <> Pending -> state_of p (step w ev) = Some st.
Proof.
  intros E Hst. pose proof (state_of_lt _ _ _ E) as Hp.
  destruct (step_cases w ev) as [(packet & ->)|[(e & ->)|[(chunk & ->)|(e & ->)]]].
  - by rewrite state_of_send_old.
  - by rewrite state_of_rejected_old.
  - cbn [step]. pose proof (emit_data_settled p st (data_listeners w) chunk w E Hst) as E'.
    destruct (emit_data _ _ _) as [w' [e|]]; exact E'.
  - cbn [step]. destruct (error_listeners w) as [|l ls]; [exact E|].
    by apply emit_error_settled.
Qed.

Lemma run_settled p st w evs :
  state_of p w = Some st -> st <> Pending -> state_of p (run w evs) = Some st.
Proof.
  revert w. induction evs as [|ev evs IH]; intros w E Hst; [done|].
  cbn [run fold_left]. apply IH; [|done]. by apply step_settled.
Qed.

(** An abandoned promise stays abandoned: the listeners attached later
    belong to later promises. *)
Lemma step_abandoned p w ev : abandoned p w -> abandoned p (step w ev).
Proof.
  intros (E & Hd & He). pose proof (state_of_lt _ _ _ E) as Hp. unfold abandoned.
  destruct (step_cases w ev) as [(packet & ->)|[(e & ->)|[(chunk & ->)|(e & ->)]]].
  - split; [by rewrite state_of_send_old|].
    rewrite send_world. cbn. split; apply not_elem_of_cons; split;
      try apply not_elem_of_nil; intros [= ->]; lia.
  - destruct (rejected_frame e w) as (_ & E2 & E3 & _).
    split; [by rewrite state_of_rejected_old|]. by rewrite E2, E3.
  - destruct (step_data_frame chunk w) as [-> ->]. split; [|done].
    cbn [step]. pose proof (emit_data_other p (data_listeners w) chunk w Hd) as E'.
    destruct (emit_data _ _ _) as [w' [e|]]; cbn [fst] in E';
      [change (state_of p (log_uncaught e w')) with (state_of p w')|]; congruence.
  - destruct (step_failure_frame e w) as [-> ->]. split; [|done].
    cbn [step]. destruct (error_listeners w) as [|l ls]; [exact E|].
    by rewrite emit_error_other.
Qed.

Lemma run_abandoned p w evs : abandoned p w -> abandoned p (run w evs).
Proof.
  revert w. induction evs as [|ev evs IH]; intros w H; [done|].
  cbn [run fold_left]. by apply IH, step_abandoned.
Qed.

(** A call of [send] abandons every promise that was pending. *)
Lemma send_abandons p packet w :
  state_of p w = Some Pending -> abandoned p (snd (send packet w)).
Proof.
  intros E. pose proof (state_of_lt _ _ _ E) as Hp.
  split; [by rewrite state_of_send_old|].
  rewrite send_world. cbn. split; apply not_elem_of_cons; split;
    try apply not_elem_of_nil; intros [= ->]; lia.
Qed.

(** At most one 'data' listener at a time. *)
Lemma step_one_listener w ev :
  (length (data_listeners w) <= 1)%nat -> (length (data_listeners (step w ev)) <= 1)%nat.
Proof.
  intros H.
  destruct (step_cases w ev) as [(packet & ->)|[(e & ->)|[(chunk & ->)|(e & ->)]]].
  - rewrite send_world. cbn. lia.
  - destruct (rejected_frame e w) as (_ & -> & _). done.
  - destruct (step_data_frame chunk w) as [-> _]. done.
  - destruct (step_failure_frame e w) as [-> _]. done.
Qed.

Lemma run_one_listener w evs :
  (length (data_listeners w) <= 1)%nat -> (length (data_listeners (run w evs)) <= 1)%nat.
Proof.
  revert w. induction evs as [|ev evs IH]; intros w H; [done|].
  cbn [run fold_left]. by apply IH, step_one_listener.
Qed.

(** The 'data' listener of the last [send], on a chunk that decodes to a
    packet which passes the check on the password. *)
Lemma step_data_resolves p chunk packet w :
  data_listeners w = [SendData p] ->
  rcon_get_packet_structure chunk = Ok packet -> wrong_password packet = false ->
  step w (Data chunk) = resolve p (VPacket packet) (log_call (SendData p) chunk w).
Proof.
  intros Hl Hd Hc. cbn [step]. rewrite Hl. cbn [emit_data call_data]. by rewrite Hd, Hc.
Qed.

(** The same listener, on a packet that fails the check: the exception
    leaves the listener, the promise is not touched. *)
Lemma step_data_throws p chunk packet w :
  data_listeners w = [SendData p] ->
  rcon_get_packet_structure chunk = Ok packet -> wrong_password packet = true ->
  step w (Data chunk)
  = log_uncaught (Error "Wrong RCON password!") (log_call (SendData p) chunk w).
Proof.
  intros Hl Hd Hc. cbn [step]. rewrite Hl. cbn [emit_data call_data]. by rewrite Hd, Hc.
Qed.

End Steps.

Section Requests.

Implicit Types (p : nat) (w : World) (chunk : list byte).

(** The packet of a request: it is encoded without an exception, decodes to
    the id and the type given, and carries one byte per character of the
    body from offset 12 on. *)
Lemma encoded_request (rid rtype : Z) (text : js_string) :
  is_int32 rid -> is_int32 rtype -> string_length text <= MAX_STRING_LENGTH ->
  exists packet decoded,
    rcon_create_packet_structure rid rtype text = Ok packet
    /\ rcon_get_packet_structure packet = Ok decoded
    /\ id decoded = rid
    /\ type decoded = rtype
    /\ Wire.slice packet 12 (12 + length text) = Wire.ascii_bytes text
    /\ (is_ascii text -> body decoded = text).
Proof.
  intros Hid Hty Hlen. pose proof (string_size_int32 text Hlen) as Hsz.
  eexists. eexists.
  split; [by apply rcon_create_packet_structure_layout|].
  split; [by apply decode_layout|].
  cbn [id type body].
  split; [done|]. split; [done|]. split.
  - destruct (slices_of_fields (Wire.le_bytes 4 (Buffer.byteLength text + 10))
                (Wire.le_bytes 4 rid) (Wire.le_bytes 4 rtype)
                (Wire.ascii_bytes text ++ replicate (padding text) x00 ++ [x00; x00]))
      as (_ & _ & _ & E4); try apply length_le_bytes.
    unfold Wire.slice. rewrite E4.
    apply take_app_length'. rewrite length_ascii_bytes. lia.
  - intros Hs. rewrite padding_ascii by done. cbn [replicate].
    rewrite app_nil_r. by apply ascii_chars_bytes.
Qed.

Lemma randomInt_range (max draw : Z) : 0 < max -> 0 <= randomInt max draw < max.
Proof. intros Hmax. unfold randomInt. by apply Z.mod_pos_bound. Qed.

(** After a call of [send], the next chunk that decodes to a packet which
    passes the check fulfils the promise of that call with the packet. *)
Lemma send_then_data packet chunk response w :
  rcon_get_packet_structure chunk = Ok response -> wrong_password response = false ->
  state_of (send packet w).1 (step (send packet w).2 (Data chunk))
  = Some (Fulfilled (VPacket response)).
Proof.
  intros Hd Hc.
  rewrite (step_data_resolves (send packet w).1 chunk response) by done.
  unfold resolve. apply state_of_settle_pending. apply state_of_send_new.
Qed.

(** The same, on a packet that fails the check: the promise stays pending
    and the exception is uncaught. *)
Lemma send_then_wrong_password packet chunk response w :
  rcon_get_packet_structure chunk = Ok response -> wrong_password response = true ->
  state_of (send packet w).1 (step (send packet w).2 (Data chunk)) = Some Pending
  /\ uncaught (step (send packet w).2 (Data chunk))
     = uncaught w ++ [Error "Wrong RCON password!"].
Proof.
  intros Hd Hc.
  rewrite (step_data_throws (send packet w).1 chunk response) by done.
  split; [apply state_of_send_new | reflexivity].
Qed.

(** Every call of the 'data' listener is logged, whatever it does. *)
Lemma step_data_invoked p chunk w :
  data_listeners w = [SendData p] ->
  invoked (step w (Data chunk)) = invoked w ++ [(SendData p, chunk)].
Proof.
  intros Hl. cbn [step]. rewrite Hl. cbn [emit_data call_data].
  destruct (rcon_get_packet_structure chunk) as [packet|e]; [|done].
  destruct (wrong_password packet); [done|].
  cbn [emit_data]. unfold resolve.
  destruct (settle_frame p (Fulfilled (VPacket packet)) (log_call (SendData p) chunk w))
    as (_ & _ & _ & E & _).
  by rewrite E.
Qed.

End Requests.

Section SessionClaims.

Implicit Types (p : nat) (w : World) (chunk : list byte).

(** C6. For every password, [auth] writes exactly one packet, the one encoded
    with type [SERVERDATA_AUTH] (3), id 10 and the password as body, and
    then waits for one response packet: its promise is pending with the one
    'data' listener of the socket, the next packet that passes the check
    fulfils it, and nothing that follows changes it. *)
Theorem auth_sends_one_packet (password : js_string) w :
  string_length password <= MAX_STRING_LENGTH ->
  exists packet decoded p w',
    auth password w = (p, w')
    /\ rcon_create_packet_structure 10 PACKET_TYPES.SERVERDATA_AUTH password = Ok packet
    /\ written w' = written w ++ [packet]
    /\ rcon_get_packet_structure packet = Ok decoded
    /\ id decoded = 10 /\ type decoded = 3
    /\ Wire.slice packet 12 (12 + length password) = Wire.ascii_bytes password
    /\ (is_ascii password -> body decoded = password)
    /\ state_of p w' = Some Pending
    /\ data_listeners w' = [SendData p]
    /\ (forall chunk response,
          rcon_get_packet_structure chunk = Ok response ->
          wrong_password response = false ->
          forall evs,
            state_of p (run w' (Data chunk :: evs)) = Some (Fulfilled (VPacket response))).
Proof.
  intros Hlen.
  destruct (encoded_request 10 3 password)
    as (packet & decoded & Hc & Hd & Hid & Hty & Hbytes & Hbody); [literal|literal|done|].
  exists packet, decoded, (send packet w).1, (send packet w).2.
  split; [unfold auth, PACKET_TYPES.SERVERDATA_AUTH; rewrite Hc; apply surjective_pairing|].
  repeat (split; [done|]).
  split; [apply state_of_send_new|]. split; [done|].
  intros chunk response Hr Hok evs. cbn [run fold_left].
  apply run_settled; [by apply send_then_data | done].
Qed.

Lemma auth_sends_one_packet_witness :
  exists packet decoded p w',
    auth (str "hunter2") connected = (p, w')
    /\ rcon_create_packet_structure 10 PACKET_TYPES.SERVERDATA_AUTH (str "hunter2") = Ok packet
    /\ written w' = [packet]
    /\ rcon_get_packet_structure packet = Ok decoded
    /\ id decoded = 10 /\ type decoded = 3
    /\ state_of p w' = Some Pending
    /\ data_listeners w' = [SendData p].
Proof.
  destruct (auth_sends_one_packet (str "hunter2") connected)
    as (packet & decoded & p & w' & H1 & H2 & H3 & H4 & H5 & H6 & _ & _ & H9 & H10 & _).
  - literal.
  - exists packet, decoded, p, w'. repeat split; assumption.
Defined.

(** C2, on the code: [auth] with any password, then the packet
    [{id: -1, type: 2}] as the first one received. The listener raises
    [Error('Wrong RCON password!')], which nothing catches; the promise of
    [auth] stays pending, it is not rejected. *)
Theorem auth_wrong_password_stays_pending :
  rcon_get_packet_structure auth_failure_chunk
  = Ok {| size := 10; id := -1; type := 2; body := [] |}
  /\ state_of (auth (str "hunter2") connected).1
       (step (auth (str "hunter2") connected).2 (Data auth_failure_chunk))
     = Some Pending
  /\ state_of (auth (str "hunter2") connected).1
       (step (auth (str "hunter2") connected).2 (Data auth_failure_chunk))
     <> Some (Rejected (AuthenticationError "Wrong RCON password!"))
  /\ uncaught (step (auth (str "hunter2") connected).2 (Data auth_failure_chunk))
     = [Error "Wrong RCON password!"].
Proof. repeat split; try reflexivity. vm_compute. discriminate. Qed.

(** C3, as the claim has it, fails: [command('ping')] answered by the packet
    whose body is 'pong' resolves with the packet structure, not with the
    string 'pong'. *)
Lemma command_resolves_with_structure :
  rcon_get_packet_structure pong_chunk
  = Ok {| size := 14; id := 4242; type := 0; body := str "pong" |}
  /\ state_of 0 (run connected [Command (str "ping") 4242; Data pong_chunk])
     = Some (Fulfilled (VPacket {| size := 14; id := 4242; type := 0; body := str "pong" |}))
  /\ state_of 0 (run connected [Command (str "ping") 4242; Data pong_chunk])
     <> Some (Fulfilled (VString (str "pong"))).
Proof. repeat split; try reflexivity. vm_compute. discriminate. Qed.

(** C3, amended. For every command text, [command] resolves with the decoded
    response packet, a structure of size, id, type and body, whose body is
    the string of the response: the bytes of the chunk from offset 12 up to
    its last two, as ASCII. *)
Theorem command_resolves_with_response_packet (name : js_string) (draw : Z) w chunk response :
  string_length name <= MAX_STRING_LENGTH ->
  rcon_get_packet_structure chunk = Ok response ->
  wrong_password response = false ->
  exists p w',
    command name draw w = (p, w')
    /\ state_of p (step w' (Data chunk)) = Some (Fulfilled (VPacket response))
    /\ body response = Wire.ascii_chars (Wire.slice chunk 12 (length chunk - 2)).
Proof.
  intros Hlen Hr Hok.
  destruct (encoded_request (randomInt 10000 draw) 2 name)
    as (packet & _ & Hc & _); [|literal|done|].
  { pose proof (randomInt_range 10000 draw). unfold is_int32, INT32_MIN, INT32_MAX.
    change (2 ^ 31) with 2147483648. lia. }
  exists (send packet w).1, (send packet w).2.
  split; [unfold command, PACKET_TYPES.SERVERDATA_EXECCOMMAND; rewrite Hc;
          apply surjective_pairing|].
  split; [by apply send_then_data|].
  destruct (Z.lt_ge_cases (Buffer.length chunk) 12) as [Hshort|Hlong].
  - rewrite rcon_get_packet_structure_short in Hr by done. discriminate.
  - rewrite rcon_get_packet_structure_fields in Hr by lia. by injection Hr as <-.
Qed.

Lemma command_resolves_with_response_packet_witness :
  exists p w',
    command (str "ping") 4242 connected = (p, w')
    /\ state_of p (step w' (Data pong_chunk))
       = Some (Fulfilled (VPacket {| size := 14; id := 4242; type := 0; body := str "pong" |}))
    /\ str "pong" = Wire.ascii_chars (Wire.slice pong_chunk 12 16).
Proof.
  apply (command_resolves_with_response_packet (str "ping") 4242 connected pong_chunk
           {| size := 14; id := 4242; type := 0; body := str "pong" |});
    [literal | reflexivity | reflexivity].
Defined.

(** C7, as the claim has it, fails: the first packet received after
    [command('status')] is [{id: -1, type: 2}]; it decodes to a packet, and
    the promise of the call is not resolved with it. *)
Lemma command_unresolved_by_first_packet :
  rcon_get_packet_structure auth_failure_chunk
  = Ok {| size := 10; id := -1; type := 2; body := [] |}
  /\ state_of 0 (run connected [Command (str "status") 4242; Data auth_failure_chunk])
     = Some Pending
  /\ state_of 0 (run connected [Command (str "status") 4242; Data auth_failure_chunk])
     <> Some (Fulfilled (VPacket {| size := 10; id := -1; type := 2; body := [] |})).
Proof. repeat split; try reflexivity. vm_compute. discriminate. Qed.

(** C7, amended. For every command text, [command] writes exactly one packet,
    the one encoded with type [SERVERDATA_EXECCOMMAND] (2), an id that is an
    integer of [0, 10000) and the text as body; when the first chunk received
    after the write decodes to a packet that is not (type 2 and id -1), the
    call resolves with that packet, whether its id is the one generated or
    not. *)
Theorem command_sends_one_packet (name : js_string) (draw : Z) w :
  string_length name <= MAX_STRING_LENGTH ->
  exists packet decoded p w',
    command name draw w = (p, w')
    /\ 0 <= randomInt 10000 draw < 10000
    /\ rcon_create_packet_structure (randomInt 10000 draw)
         PACKET_TYPES.SERVERDATA_EXECCOMMAND name = Ok packet
    /\ written w' = written w ++ [packet]
    /\ rcon_get_packet_structure packet = Ok decoded
    /\ id decoded = randomInt 10000 draw /\ type decoded = 2
    /\ Wire.slice packet 12 (12 + length name) = Wire.ascii_bytes name
    /\ (is_ascii name -> body decoded = name)
    /\ (forall chunk response,
          rcon_get_packet_structure chunk = Ok response ->
          ~ (type response = 2 /\ id response = -1) ->
          state_of p (step w' (Data chunk)) = Some (Fulfilled (VPacket response))).
Proof.
  intros Hlen. pose proof (randomInt_range 10000 draw ltac:(lia)) as Hrange.
  destruct (encoded_request (randomInt 10000 draw) 2 name)
    as (packet & decoded & Hc & Hd & Hid & Hty & Hbytes & Hbody); [|literal|done|].
  { unfold is_int32, INT32_MIN, INT32_MAX. change (2 ^ 31) with 2147483648. lia. }
  exists packet, decoded, (send packet w).1, (send packet w).2.
  split; [unfold command, PACKET_TYPES.SERVERDATA_EXECCOMMAND; rewrite Hc;
          apply surjective_pairing|].
  repeat (split; [done|]).
  intros chunk response Hr Hok. apply send_then_data; [done|].
  unfold wrong_password. apply andb_false_iff.
  destruct (Z.eqb_spec (type response) 2); [|by left].
  destruct (Z.eqb_spec (id response) (-1)); [|by right]. tauto.
Qed.

Lemma command_sends_one_packet_witness :
  exists packet decoded p w',
    command (str "status") 123456 connected = (p, w')
    /\ 0 <= randomInt 10000 123456 < 10000
    /\ rcon_create_packet_structure 3456 2 (str "status") = Ok packet
    /\ written w' = [packet]
    /\ rcon_get_packet_structure packet = Ok decoded
    /\ id decoded = 3456 /\ type decoded = 2
    /\ state_of p (step w' (Data ok_chunk))
       = Some (Fulfilled (VPacket {| size := 12; id := 7; type := 0; body := str "ok" |})).
Proof.
  destruct (command_sends_one_packet (str "status") 123456 connected)
    as (packet & decoded & p & w' & H1 & H2 & H3 & H4 & H5 & H6 & H7 & _ & _ & H10).
  - literal.
  - exists packet, decoded, p, w'. repeat (split; [assumption|]).
    apply H10; [reflexivity|]. cbn. intros [? _]. discriminate.
Defined.

(** C8, as the claim has it, fails: two calls of [send], the second before
    the first is resolved, then the packet [{id: -1, type: 2}]: the next
    inbound packet does not resolve the second call. *)
Lemma second_send_unresolved_by_next_packet :
  state_of 0 (run connected [Send ok_chunk; Send pong_chunk]) = Some Pending
  /\ state_of 1 (run connected [Send ok_chunk; Send pong_chunk; Data auth_failure_chunk])
     = Some Pending
  /\ state_of 1 (run connected [Send ok_chunk; Send pong_chunk; Data auth_failure_chunk])
     <> Some (Fulfilled (VPacket {| size := 10; id := -1; type := 2; body := [] |})).
Proof. repeat split; try reflexivity. vm_compute. discriminate. Qed.

(** C8, amended. Every call of [send] removes all the 'data' and 'error'
    listeners attached before and then attaches its own, so the socket never
    has more than one 'data' listener; if a call of [send] is made while
    the promise of an earlier call is pending, the next inbound chunk that
    decodes to a packet which is not (type 2 and id -1) resolves the later
    call, and the promise of the earlier call never settles. *)
Theorem send_replaces_listeners (packet : list byte) w (p1 : nat) :
  state_of p1 w = Some Pending ->
  exists p2 w',
    send packet w = (p2, w')
    /\ data_listeners w' = [SendData p2]
    /\ error_listeners w' = [SendError p2]
    /\ (forall evs, (length (data_listeners (run w' evs)) <= 1)%nat)
    /\ (forall evs, (length (data_listeners (run connected evs)) <= 1)%nat)
    /\ (forall chunk response,
          rcon_get_packet_structure chunk = Ok response ->
          ~ (type response = 2 /\ id response = -1) ->
          state_of p2 (step w' (Data chunk)) = Some (Fulfilled (VPacket response)))
    /\ (forall evs, state_of p1 (run w' evs) = Some Pending).
Proof.
  intros Hp1. exists (send packet w).1, (send packet w).2.
  split; [apply surjective_pairing|]. split; [done|]. split; [done|].
  split; [intros evs; by apply run_one_listener|].
  split; [intros evs; apply run_one_listener; cbn; lia|].
  split.
  - intros chunk response Hr Hok. apply send_then_data; [done|].
    unfold wrong_password. apply andb_false_iff.
    destruct (Z.eqb_spec (type response) 2); [|by left].
    destruct (Z.eqb_spec (id response) (-1)); [|by right]. tauto.
  - intros evs. by apply (run_abandoned p1), send_abandons.
Qed.

Lemma send_replaces_listeners_witness :
  exists p2 w',
    send pong_chunk (send ok_chunk connected).2 = (p2, w')
    /\ data_listeners w' = [SendData p2]
    /\ error_listeners w' = [SendError p2]
    /\ state_of p2 (step w' (Data ok_chunk))
       = Some (Fulfilled (VPacket {| size := 12; id := 7; type := 0; body := str "ok" |}))
    /\ (forall evs, state_of 0 (run w' evs) = Some Pending).
Proof.
  destruct (send_replaces_listeners pong_chunk (send ok_chunk connected).2 0)
    as (p2 & w' & H1 & H2 & H3 & _ & _ & H6 & H7).
  - reflexivity.
  - exists p2, w'. repeat (split; [assumption|]). split; [|exact H7].
    apply H6; [reflexivity|]. cbn. intros [? _]. discriminate.
Defined.

(** C9, as the claim has it, fails: after one call of [send], two chunks
    arrive; the listener is still attached after the first chunk, and the
    second chunk invokes the same listener again. *)
Lemma data_listener_invoked_twice :
  data_listeners (run connected [Send pong_chunk; Data ok_chunk]) = [SendData 0]
  /\ invoked (run connected [Send pong_chunk; Data ok_chunk; Data pong_chunk])
     = [(SendData 0, ok_chunk); (SendData 0, pong_chunk)].
Proof. split; reflexivity. Qed.

(** C9, amended. When a chunk arrives, the 'data' listener attached by the
    most recent call of [send] is invoked exactly once with that chunk, and
    it stays attached: every later chunk invokes it again, until the next
    call of [send] removes it. *)
Theorem data_listener_stays_attached w (p : nat) (chunk : list byte) :
  data_listeners w = [SendData p] ->
  (p < length (promises w))%nat ->
  invoked (step w (Data chunk)) = invoked w ++ [(SendData p, chunk)]
  /\ data_listeners (step w (Data chunk)) = [SendData p]
  /\ (forall chunk',
        invoked (run w [Data chunk; Data chunk'])
        = invoked w ++ [(SendData p, chunk); (SendData p, chunk')])
  /\ (forall packet, SendData p ∉ data_listeners (run w [Data chunk; Send packet])).
Proof.
  intros Hl Hp.
  destruct (step_data_frame chunk w) as [Hd _]. rewrite Hl in Hd.
  split; [by apply step_data_invoked|]. split; [done|]. split.
  - intros chunk'. cbn [run fold_left].
    rewrite (step_data_invoked p chunk') by done.
    rewrite (step_data_invoked p chunk) by done.
    by rewrite <- app_assoc.
  - intros packet. cbn [run fold_left step]. rewrite send_world. cbn [snd data_listeners].
    apply not_elem_of_cons. split; [|apply not_elem_of_nil].
    destruct (emit_data_frame (data_listeners w) chunk w) as (_ & _ & _ & E).
    intros [= ->].
    destruct (emit_data _ _ _) as [w' [e|]]; cbn in *; lia.
Qed.

Lemma data_listener_stays_attached_witness :
  invoked (step (send pong_chunk connected).2 (Data ok_chunk)) = [(SendData 0, ok_chunk)]
  /\ data_listeners (step (send pong_chunk connected).2 (Data ok_chunk)) = [SendData 0].
Proof.
  destruct (data_listener_stays_attached (send pong_chunk connected).2 0 ok_chunk)
    as (H1 & H2 & _); [reflexivity | cbn; lia |].
  split; assumption.
Defined.

End SessionClaims.

(** * Further properties of the codec *)

Section CodecEdges.

Implicit Types (s : js_string) (buffer : list byte).

(** [writeInt32LE] checks the value before it touches the buffer. *)
Lemma writeInt32LE_out_of_range buffer (v o : Z) :
  ~ is_int32 v ->
  Buffer.writeInt32LE buffer v o = Throw (RangeError "ERR_OUT_OF_RANGE").
Proof.
  intros Hv. unfold Buffer.writeInt32LE, Buffer.checkInt, is_int32 in *.
  destruct (Z.gtb_spec v INT32_MAX); [reflexivity|].
  destruct (Z.ltb_spec v INT32_MIN); [reflexivity|]. lia.
Qed.

(** The other direction of the integer round trip: four bytes are the
    little-endian bytes of the signed integer they stand for. *)
Lemma le_bytes_le_int32 (bs : list byte) :
  length bs = 4%nat -> Wire.le_bytes 4 (Wire.le_int32 bs) = bs.
Proof.
  intros Hlen.
  do 4 (destruct bs as [|? bs]; [discriminate|]). destruct bs; [|discriminate].
  unfold Wire.le_int32, to_int32. cbn [Wire.le_bytes Wire.le_unsigned].
  pose proof (byte_to_Z_range b). pose proof (byte_to_Z_range b0).
  pose proof (byte_to_Z_range b1). pose proof (byte_to_Z_range b2).
  assert (Hbyte : forall (c : byte) (v : Z), v mod 256 = byte_to_Z c -> byte_of_Z v = c).
  { intros c v Hv. rewrite <- (byte_of_to_Z c). apply byte_of_Z_mod.
    rewrite Hv. symmetry. apply Z.mod_small, byte_to_Z_range. }
  change (2 ^ 31) with 2147483648. change (2 ^ 32) with 4294967296.
  repeat f_equal; apply Hbyte; Z.div_mod_to_equations; lia.
Qed.

(** X1. An id or a type outside the signed 32-bit range makes the encoder
    raise the range error of [writeInt32LE]; no buffer is returned. *)
Theorem encode_rejects_out_of_range (rid rtype : Z) (text : js_string) :
  string_length text <= MAX_STRING_LENGTH ->
  ~ (is_int32 rid /\ is_int32 rtype) ->
  rcon_create_packet_structure rid rtype text = Throw (RangeError "ERR_OUT_OF_RANGE").
Proof.
  intros Hlen Hbad. pose proof (string_size_int32 text Hlen) as Hsz.
  pose proof (utf8_length_bounds text) as Hb.
  unfold rcon_create_packet_structure. rewrite alloc_fields.
  replace (Buffer.byteLength text + 14 - 4) with (Buffer.byteLength text + 10) by lia.
  rewrite writeInt32LE_at_0.
  2:{ unfold is_int32, INT32_MIN, INT32_MAX, Buffer.byteLength, string_length in *. lia. }
  cbn [mbind result_bind].
  destruct (decide (INT32_MIN <= rid <= INT32_MAX)) as [Hid|Hid].
  - rewrite (writeInt32LE_at (Wire.le_bytes 4 (Buffer.byteLength text + 10)) x00 x00 x00 x00);
      [|reflexivity|done].
    cbn [mbind result_bind].
    rewrite writeInt32LE_out_of_range; [reflexivity|]. unfold is_int32 in *. tauto.
  - rewrite writeInt32LE_out_of_range by done. reflexivity.
Qed.

Lemma encode_rejects_out_of_range_witness :
  rcon_create_packet_structure 2147483648 2 (str "status")
  = Throw (RangeError "ERR_OUT_OF_RANGE").
Proof.
  apply encode_rejects_out_of_range; [literal|].
  unfold is_int32, INT32_MAX. intros [[_ H] _]. vm_compute in H. by apply H.
Defined.

Lemma land_127 (x : Z) : Z.land x 127 = x mod 128.
Proof. change 127 with (Z.ones 7). by rewrite Z.land_ones by lia. Qed.

Lemma ascii_chars_app (a b : list byte) :
  Wire.ascii_chars (a ++ b) = Wire.ascii_chars a ++ Wire.ascii_chars b.
Proof. apply map_app. Qed.

Lemma ascii_chars_zeros (n : nat) : Wire.ascii_chars (replicate n x00) = replicate n 0.
Proof. induction n as [|n IH]; [done|]. cbn [replicate]. by rewrite <- IH. Qed.

Lemma ascii_chars_of_bytes s :
  Wire.ascii_chars (Wire.ascii_bytes s) = map (fun c => Z.land (c mod 256) 127) s.
Proof.
  unfold Wire.ascii_chars, Wire.ascii_bytes. rewrite map_map.
  apply map_ext. intros c. by rewrite byte_to_of_Z.
Qed.

Lemma ascii_chars_is_ascii (bs : list byte) : is_ascii (Wire.ascii_chars bs).
Proof.
  unfold is_ascii, Wire.ascii_chars. induction bs as [|b bs IH]; constructor; [|done].
  rewrite land_127. apply Z.mod_pos_bound. lia.
Qed.

Lemma ascii_bytes_of_chars (bs : list byte) :
  Forall (fun b => byte_to_Z b < 128) bs -> Wire.ascii_bytes (Wire.ascii_chars bs) = bs.
Proof.
  unfold Wire.ascii_bytes, Wire.ascii_chars.
  induction 1 as [|b bs Hb _ IH]; [done|]. cbn [map]. rewrite IH. f_equal.
  pose proof (byte_to_Z_range b).
  rewrite land_127, Z.mod_small by lia. apply byte_of_to_Z.
Qed.

(** X2. The round trip on any string, ASCII or not: the encoder returns a
    buffer of the UTF-8 length of the string plus 14 bytes, and decoding it
    gives the size (the length of the buffer minus 4), the id, the type, and
    as body the low seven bits of the low byte of every code unit, followed
    by one NUL character for each byte the UTF-8 form takes beyond one a
    code unit. *)
Theorem decode_encode_any_string (rid rtype : Z) (text : js_string) :
  string_length text <= MAX_STRING_LENGTH -> is_int32 rid -> is_int32 rtype ->
  exists buffer,
    rcon_create_packet_structure rid rtype text = Ok buffer
    /\ Buffer.length buffer = Buffer.byteLength text + 14
    /\ string_length text + 14 <= Buffer.length buffer <= 3 * string_length text + 14
    /\ rcon_get_packet_structure buffer
       = Ok {| size := Buffer.length buffer - 4; id := rid; type := rtype;
               body := map (fun c => Z.land (c mod 256) 127) text
                       ++ replicate (padding text) 0 |}.
Proof.
  intros Hlen Hid Hty. pose proof (string_size_int32 text Hlen) as Hsz.
  pose proof (utf8_length_bounds text) as Hb.
  eexists. split; [by apply rcon_create_packet_structure_layout|].
  assert (Hl : Buffer.length
                 (Wire.le_bytes 4 (Buffer.byteLength text + 10) ++ Wire.le_bytes 4 rid
                    ++ Wire.le_bytes 4 rtype ++ Wire.ascii_bytes text
                    ++ replicate (padding text) x00 ++ [x00; x00])
               = Buffer.byteLength text + 14).
  { unfold Buffer.length.
    rewrite !length_app, !length_le_bytes, length_ascii_bytes, length_replicate.
    unfold padding, Buffer.byteLength, string_length in *. cbn [length]. lia. }
  rewrite Hl. split; [done|]. split; [unfold Buffer.byteLength; lia|].
  rewrite decode_layout by done.
  rewrite ascii_chars_app, ascii_chars_zeros, ascii_chars_of_bytes.
  do 2 f_equal. lia.
Qed.

Lemma decode_encode_any_string_witness :
  exists buffer,
    rcon_create_packet_structure 7 2 [233; 8364] = Ok buffer
    /\ Buffer.length buffer = 19
    /\ rcon_get_packet_structure buffer
       = Ok {| size := 15; id := 7; type := 2; body := [105; 44; 0; 0; 0] |}.
Proof.
  destruct (decode_encode_any_string 7 2 [233; 8364])
    as (buffer & E & Hl & _ & Hd); [literal|literal|literal|].
  exists buffer. split; [exact E|]. split; [exact Hl|].
  rewrite Hd, Hl. reflexivity.
Defined.



(** X4. Whatever the bytes of a buffer, the packet the decoder returns has
    three fields in the signed 32-bit range and a body of 7-bit characters
    only, of the length of the buffer minus 14 (none below 14 bytes). *)
Theorem decoded_packet_ranges buffer packet :
  rcon_get_packet_structure buffer = Ok packet ->
  is_int32 (size packet) /\ is_int32 (id packet) /\ is_int32 (type packet)
  /\ is_ascii (body packet)
  /\ string_length (body packet) = Z.max 0 (Buffer.length buffer - 14).
Proof.
  intros Hd.
  destruct (Z.lt_ge_cases (Buffer.length buffer) 12) as [Hshort|Hlong].
  { rewrite rcon_get_packet_structure_short in Hd by done. discriminate. }
  rewrite rcon_get_packet_structure_fields in Hd by lia. injection Hd as <-.
  cbn [size id type body].
  repeat (split; [apply le_int32_range|]). split; [apply ascii_chars_is_ascii|].
  unfold string_length, Wire.ascii_chars, Wire.slice, Buffer.length in *.
  rewrite length_map, length_take, length_drop. lia.
Qed.

Lemma decoded_packet_ranges_witness :
  is_ascii (str "pong") /\ string_length (str "pong") = Z.max 0 (Buffer.length pong_chunk - 14).
Proof.
  destruct (decoded_packet_ranges pong_chunk
              {| size := 14; id := 4242; type := 0; body := str "pong" |})
    as (_ & _ & _ & H1 & H2); [reflexivity|].
  split; [exact H1 | exact H2].
Defined.

Lemma take_drop_drop (m n : nat) (l : list byte) :
  take n (drop m l) ++ drop (m + n) l = drop m l.
Proof. rewrite <- drop_drop. apply take_drop. Qed.

(** A buffer of fourteen bytes or more is its three fields, its body and its
    last two bytes. *)
Lemma frame_split buffer :
  (14 <= length buffer)%nat ->
  buffer = Wire.slice buffer 0 4 ++ Wire.slice buffer 4 8 ++ Wire.slice buffer 8 12
             ++ Wire.slice buffer 12 (length buffer - 2) ++ drop (length buffer - 2) buffer.
Proof.
  intros Hlen. unfold Wire.slice.
  replace (drop (length buffer - 2) buffer)
    with (drop (12 + (length buffer - 2 - 12)) buffer) by (f_equal; lia).
  rewrite take_drop_drop.
  change (drop 12 buffer) with (drop (8 + (12 - 8)) buffer). rewrite take_drop_drop.
  change (drop 8 buffer) with (drop (4 + (8 - 4)) buffer). rewrite take_drop_drop.
  change (drop 4 buffer) with (drop (0 + (4 - 0)) buffer). rewrite take_drop_drop.
  reflexivity.
Qed.

(** X5. The encoder undoes the decoder on every well-formed frame: a buffer
    whose size field is its length minus 4, whose body bytes are 7-bit and
    whose last two bytes are zero is what the encoder returns for the
    packet decoded from it. *)
Theorem encode_decode_frame buffer :
  14 <= Buffer.length buffer <= MAX_STRING_LENGTH + 14 ->
  Wire.le_int32 (Wire.slice buffer 0 4) = Buffer.length buffer - 4 ->
  Forall (fun b => byte_to_Z b < 128) (Wire.slice buffer 12 (length buffer - 2)) ->
  drop (length buffer - 2) buffer = [x00; x00] ->
  exists packet,
    rcon_get_packet_structure buffer = Ok packet
    /\ rcon_create_packet_structure (id packet) (type packet) (body packet) = Ok buffer.
Proof.
  intros Hlen Hsize Hbody Hend. unfold Buffer.length in *.
  eexists. split; [apply rcon_get_packet_structure_fields; unfold Buffer.length; lia|].
  cbn [id type body].
  set (payload := Wire.slice buffer 12 (length buffer - 2)) in *.
  assert (Hpl : length payload = (length buffer - 14)%nat).
  { unfold payload, Wire.slice. rewrite length_take, length_drop. lia. }
  rewrite rcon_create_packet_structure_ascii.
  - f_equal. unfold Wire.frame.
    rewrite ascii_bytes_of_chars by done.
    replace (string_length (Wire.ascii_chars payload) + 10)
      with (Wire.le_int32 (Wire.slice buffer 0 4)).
    2:{ rewrite Hsize. unfold string_length, Wire.ascii_chars. rewrite length_map. lia. }
    rewrite !le_bytes_le_int32
      by (unfold Wire.slice; rewrite length_take, length_drop; lia).
    rewrite <- Hend. symmetry. apply frame_split. lia.
  - apply le_int32_range.
  - apply le_int32_range.
  - apply ascii_chars_is_ascii.
  - unfold string_length, Wire.ascii_chars. rewrite length_map. lia.
Qed.

Lemma encode_decode_frame_witness :
  exists packet,
    rcon_get_packet_structure pong_chunk = Ok packet
    /\ rcon_create_packet_structure (id packet) (type packet) (body packet) = Ok pong_chunk.
Proof.
  apply encode_decode_frame.
  - change (Buffer.length pong_chunk) with 18. unfold MAX_STRING_LENGTH.
    change (2 ^ 29) with 536870912. lia.
  - reflexivity.
  - cbn. repeat constructor.
  - reflexivity.
Defined.

(** X6. Two packets in one chunk: when bytes follow an encoded packet in the
    buffer, the decoder keeps the size, id and type of the first packet and
    returns a body that runs on past it: the body of the first packet, its
    two NUL bytes, and all the bytes that follow but the last two. *)
Theorem decode_with_trailing_bytes (rid rtype : Z) (text : js_string) (extra : list byte) :
  is_ascii text -> string_length text <= MAX_STRING_LENGTH ->
  is_int32 rid -> is_int32 rtype -> (2 <= length extra)%nat ->
  exists buffer,
    rcon_create_packet_structure rid rtype text = Ok buffer
    /\ rcon_get_packet_structure (buffer ++ extra)
       = Ok {| size := string_length text + 10; id := rid; type := rtype;
               body := text ++ [0; 0]
                       ++ Wire.ascii_chars (take (length extra - 2) extra) |}.
Proof.
  intros Hs Hlen Hid Hty Hextra.
  exists (Wire.frame rid rtype text).
  split; [by apply rcon_create_packet_structure_ascii|].
  pose proof (string_size_int32 text Hlen) as Hsz.
  unfold Buffer.byteLength in Hsz. rewrite utf8_length_ascii in Hsz by done.
  unfold Wire.frame. rewrite <- !app_assoc.
  set (payload := Wire.ascii_bytes text ++ [x00; x00] ++ extra).
  set (buffer := _ ++ _).
  assert (Hl : length buffer = (12 + (length text + 2 + length extra))%nat).
  { unfold buffer, payload.
    rewrite !length_app, !length_le_bytes, length_ascii_bytes. cbn [length]. lia. }
  rewrite rcon_get_packet_structure_fields by (unfold Buffer.length; lia).
  destruct (slices_of_fields (Wire.le_bytes 4 (string_length text + 10))
              (Wire.le_bytes 4 rid) (Wire.le_bytes 4 rtype) payload)
    as (E1 & E2 & E3 & E4); try apply length_le_bytes.
  fold buffer in E1, E2, E3, E4.
  rewrite E1, E2, E3. unfold Wire.slice at 1. rewrite E4, Hl.
  rewrite !le_int32_le_bytes; try done.
  2:{ unfold is_int32, INT32_MIN, string_length in *. lia. }
  do 2 f_equal. unfold payload.
  replace (12 + (length text + 2 + length extra) - 2 - 12)%nat
    with (length (Wire.ascii_bytes text) + (2 + (length extra - 2)))%nat
    by (rewrite length_ascii_bytes; lia).
  rewrite take_app_add. cbn [app take].
  rewrite ascii_chars_app, ascii_chars_bytes by done. reflexivity.
Qed.

Lemma decode_with_trailing_bytes_witness :
  exists buffer,
    rcon_create_packet_structure 10 0 [] = Ok buffer
    /\ rcon_get_packet_structure (buffer ++ auth_failure_chunk)
       = Ok {| size := 10; id := 10; type := 0;
               body := [0; 0; 10; 0; 0; 0; 127; 127; 127; 127; 2; 0; 0; 0] |}.
Proof.
  apply (decode_with_trailing_bytes 10 0 [] auth_failure_chunk); literal.
Defined.

Lemma wrong_password_bytes (chunk : list byte) packet :
  rcon_get_packet_structure chunk = Ok packet ->
  wrong_password packet = true
  <-> Wire.slice chunk 4 12 = [xff; xff; xff; xff; x02; x00; x00; x00].
Proof.
  intros Hd.
  destruct (Z.lt_ge_cases (Buffer.length chunk) 12) as [Hshort|Hlong].
  { rewrite rcon_get_packet_structure_short in Hd by done. discriminate. }
  rewrite rcon_get_packet_structure_fields in Hd by lia. injection Hd as <-.
  unfold wrong_password, Buffer.length in *. cbn [id type].
  assert (H1 : length (Wire.slice chunk 4 8) = 4%nat)
    by (unfold Wire.slice; rewrite length_take, length_drop; lia).
  assert (H2 : length (Wire.slice chunk 8 12) = 4%nat)
    by (unfold Wire.slice; rewrite length_take, length_drop; lia).
  assert (Hcat : Wire.slice chunk 4 12 = Wire.slice chunk 4 8 ++ Wire.slice chunk 8 12).
  { unfold Wire.slice. change (12 - 4)%nat with (4 + 4)%nat.
    rewrite <- (take_take_drop (drop 4 chunk) 4 4), drop_drop. reflexivity. }
  rewrite Hcat, andb_true_iff, !Z.eqb_eq. split.
  - intros [Hty Hid].
    rewrite <- (le_bytes_le_int32 _ H1), <- (le_bytes_le_int32 _ H2), Hty, Hid.
    reflexivity.
  - intros Heq.
    apply (app_inj_1 _ [xff; xff; xff; xff] _ [x02; x00; x00; x00]) in Heq as [-> ->];
      [done | by rewrite H1].
Qed.

(** X7. The check on the password looks at bytes 4 to 12 of the chunk and at
    nothing else: a chunk that decodes is taken for the answer to a wrong
    password exactly when these eight bytes are ff ff ff ff 02 00 00 00. *)
Theorem wrong_password_header (chunk : list byte) packet :
  rcon_get_packet_structure chunk = Ok packet ->
  wrong_password packet = true
  <-> Wire.slice chunk 4 12 = [xff; xff; xff; xff; x02; x00; x00; x00].
Proof. apply wrong_password_bytes. Qed.

Lemma wrong_password_header_witness :
  wrong_password {| size := 10; id := -1; type := 2; body := [] |} = true
  <-> Wire.slice auth_failure_chunk 4 12 = [xff; xff; xff; xff; x02; x00; x00; x00].
Proof. apply wrong_password_header. reflexivity. Defined.

End CodecEdges.

(** * Further properties of the session *)

Section SessionTraces.

Implicit Types (p q : nat) (w : World) (ev : event) (evs : list event)
  (chunk packet : list byte).

Lemma emit_data_uncaught_written (ls : list data_listener) chunk w :
  written (emit_data ls chunk w).1 = written w
  /\ uncaught (emit_data ls chunk w).1 = uncaught w.
Proof.
  revert w. induction ls as [|[q] ls IH]; intros w; [done|].
  cbn [emit_data call_data].
  destruct (rcon_get_packet_structure chunk) as [response|e]; [|done].
  destruct (wrong_password response); [done|].
  destruct (IH (resolve q (VPacket response) (log_call (SendData q) chunk w))) as (E1 & E2).
  destruct (settle_frame q (Fulfilled (VPacket response)) (log_call (SendData q) chunk w))
    as (F1 & _ & _ & _ & F5 & _).
  unfold resolve in *. rewrite E1, E2, F1, F5. done.
Qed.

Lemma emit_error_uncaught_written (ls : list error_listener) e w :
  written (emit_error ls e w) = written w
  /\ uncaught (emit_error ls e w) = uncaught w.
Proof.
  revert w. induction ls as [|[|q] ls IH]; intros w; [done| apply IH |].
  cbn [emit_error fold_left call_error].
  destruct (IH (reject q e w)) as (E1 & E2).
  destruct (settle_frame q (Rejected e) w) as (F1 & _ & _ & _ & F5 & _).
  unfold emit_error, reject in *. rewrite E1, E2, F1, F5. done.
Qed.

Lemma step_written w ev : written (step w ev) = written w ++ request_of ev.
Proof.
  destruct ev as [packet|password|name draw|chunk|e]; cbn [step request_of].
  - reflexivity.
  - unfold auth. destruct (rcon_create_packet_structure _ _ _) as [packet|e]; [done|].
    destruct (rejected_frame e w) as (-> & _). by rewrite app_nil_r.
  - unfold command. destruct (rcon_create_packet_structure _ _ _) as [packet|e]; [done|].
    destruct (rejected_frame e w) as (-> & _). by rewrite app_nil_r.
  - destruct (emit_data_uncaught_written (data_listeners w) chunk w) as (E & _).
    rewrite app_nil_r. destruct (emit_data _ _ _) as [w' [e|]]; exact E.
  - rewrite app_nil_r. destruct (error_listeners w) as [|l ls]; [done|].
    apply emit_error_uncaught_written.
Qed.

(** X8. Writes go out in the order of the calls and nothing else writes:
    after any sequence of calls, chunks and socket errors, the socket was
    given what it had before, then one packet for each call, in order. *)
Theorem writes_in_call_order w evs :
  written (run w evs) = written w ++ concat (map request_of evs).
Proof.
  revert w. induction evs as [|ev evs IH]; intros w; cbn [run fold_left map concat].
  - by rewrite app_nil_r.
  - fold (run (step w ev) evs). rewrite IH, step_written. by rewrite app_assoc.
Qed.

(** X9. Settling is final: a promise that is fulfilled or rejected keeps its
    state and its value through every later call, chunk and socket error. *)
Theorem settled_is_final p (st : promise_state) w evs :
  state_of p w = Some st -> st <> Pending -> state_of p (run w evs) = Some st.
Proof. apply run_settled. Qed.

Lemma settled_is_final_witness :
  state_of 0 (run (run connected [Send ok_chunk; Data pong_chunk])
                [Data ok_chunk; SocketFailure (SocketError "ECONNRESET"); Send ok_chunk])
  = Some (Fulfilled (VPacket {| size := 14; id := 4242; type := 0; body := str "pong" |})).
Proof. apply settled_is_final; [reflexivity | discriminate]. Defined.

(** X10. A socket error rejects the pending call with the error itself: after
    [send], an 'error' event puts the promise of the call in the rejected
    state with that error, raises nothing uncaught, and the rejection stays
    whatever follows. *)
Theorem socket_error_rejects_call packet (e : js_error) w evs :
  state_of (send packet w).1 (run (send packet w).2 (SocketFailure e :: evs))
  = Some (Rejected e)
  /\ uncaught (step (send packet w).2 (SocketFailure e)) = uncaught w.
Proof.
  assert (Hstep : step (send packet w).2 (SocketFailure e)
                  = reject (send packet w).1 e (send packet w).2) by reflexivity.
  split.
  - cbn [run fold_left]. apply run_settled; [|done].
    rewrite Hstep. unfold reject. apply state_of_settle_pending, state_of_send_new.
  - rewrite Hstep. unfold reject.
    by destruct (settle_frame (send packet w).1 (Rejected e) (send packet w).2)
      as (_ & _ & _ & _ & -> & _).
Qed.

Lemma step_promises_length w ev :
  (length (promises w) <= length (promises (step w ev)))%nat.
Proof.
  destruct (step_cases w ev) as [(packet & ->)|[(e & ->)|[(chunk & ->)|(e & ->)]]].
  - rewrite send_world. cbn. rewrite length_app. lia.
  - unfold rejected, reject. cbn [new_promise snd].
    destruct (settle_frame (length (promises w)) (Rejected e)
                (set_promises (promises w ++ [Pending]) w)) as (_ & _ & _ & _ & _ & ->).
    cbn. rewrite length_app. lia.
  - cbn [step]. destruct (emit_data_frame (data_listeners w) chunk w) as (_ & _ & _ & E).
    destruct (emit_data _ _ _) as [w' [e|]]; cbn in *; lia.
  - cbn [step]. destruct (error_listeners w) as [|l ls]; [done|].
    destruct (emit_error_frame (l :: ls) e w) as (_ & _ & _ & ->). done.
Qed.

Lemma step_listeners_paired w ev : listeners_paired w -> listeners_paired (step w ev).
Proof.
  intros Hw. unfold listeners_paired.
  destruct (step_cases w ev) as [(packet & ->)|[(e & ->)|[(chunk & Hev)|(e & Hev)]]].
  - right. exists (send packet w).1. repeat split; try done.
    rewrite state_of_send_new. eauto.
  - destruct (rejected_frame e w) as (_ & -> & -> & _).
    destruct Hw as [?|(p & ? & ? & Hp)]; [by left|].
    right. exists p. repeat split; try done.
    rewrite state_of_rejected_old; [done|]. by apply lookup_lt_is_Some.
  - pose proof (step_promises_length w ev) as Hlen. subst ev.
    destruct (step_data_frame chunk w) as [-> ->].
    destruct Hw as [?|(p & ? & ? & Hp)]; [by left|].
    right. exists p. repeat split; try done.
    apply lookup_lt_is_Some. apply lookup_lt_is_Some in Hp. lia.
  - pose proof (step_promises_length w ev) as Hlen. subst ev.
    destruct (step_failure_frame e w) as [-> ->].
    destruct Hw as [?|(p & ? & ? & Hp)]; [by left|].
    right. exists p. repeat split; try done.
    apply lookup_lt_is_Some. apply lookup_lt_is_Some in Hp. lia.
Qed.

Lemma run_listeners_paired w evs : listeners_paired w -> listeners_paired (run w evs).
Proof.
  revert w. induction evs as [|ev evs IH]; intros w Hw; [done|].
  cbn [run fold_left]. by apply IH, step_listeners_paired.
Qed.

Lemma connected_listeners_paired : listeners_paired connected.
Proof. by left. Qed.

(** X11. Whatever was called and received since the connection, the socket
    carries either no 'data' listener and the 'error' listener of the
    connection, or exactly one 'data' and one 'error' listener, both of the
    same call of [send], whose promise exists. *)
Theorem listeners_of_one_call evs : listeners_paired (run connected evs).
Proof. apply run_listeners_paired, connected_listeners_paired. Qed.

(** X12. A socket error is never left unhandled: in every state the session
    reaches, an 'error' event finds a listener, so it adds no uncaught
    exception. *)
Theorem socket_error_always_handled evs (e : js_error) :
  error_listeners (run connected evs) <> []
  /\ uncaught (step (run connected evs) (SocketFailure e)) = uncaught (run connected evs).
Proof.
  pose proof (run_listeners_paired connected evs connected_listeners_paired) as Hw.
  assert (Hne : error_listeners (run connected evs) <> [])
    by (destruct Hw as [[_ ->]|(p & _ & -> & _)]; done).
  split; [done|]. cbn [step].
  destruct (error_listeners (run connected evs)) as [|l ls]; [done|].
  apply emit_error_uncaught_written.
Qed.



(** X14. The check on the password applies to every call, not to [auth]
    alone: after any [send], a chunk whose packet has type 2 and id -1
    leaves the promise of the call pending and
    [Error('Wrong RCON password!')] uncaught. *)
Theorem wrong_password_on_any_call packet chunk response w :
  rcon_get_packet_structure chunk = Ok response ->
  type response = 2 -> id response = -1 ->
  state_of (send packet w).1 (step (send packet w).2 (Data chunk)) = Some Pending
  /\ uncaught (step (send packet w).2 (Data chunk))
     = uncaught w ++ [Error "Wrong RCON password!"].
Proof.
  intros Hd Hty Hid. apply (send_then_wrong_password packet chunk response); [done|].
  unfold wrong_password. by rewrite Hty, Hid.
Qed.

Lemma wrong_password_on_any_call_witness :
  state_of 1 (step (send pong_chunk (send ok_chunk connected).2).2 (Data auth_failure_chunk))
  = Some Pending
  /\ uncaught (step (send pong_chunk (send ok_chunk connected).2).2 (Data auth_failure_chunk))
     = [Error "Wrong RCON password!"].
Proof.
  apply (wrong_password_on_any_call pong_chunk auth_failure_chunk
           {| size := 10; id := -1; type := 2; body := [] |}
           (send ok_chunk connected).2); reflexivity.
Defined.

Lemma settle_inv p q (st s' : promise_state) w :
  state_of p (settle q st w) = Some s' -> s' = st \/ state_of p w = Some s'.
Proof.
  unfold state_of, settle.
  destruct (promises w !! q) as [[]|] eqn:E; cbn; try by right.
  intros [[_ [<- _]]|[_ H]]%list_lookup_insert_Some; [by left | by right].
Qed.

Lemma decoded_body_ascii chunk response :
  rcon_get_packet_structure chunk = Ok response -> is_ascii (body response).
Proof.
  intros Hd.
  destruct (Z.lt_ge_cases (Buffer.length chunk) 12) as [Hshort|Hlong].
  { rewrite rcon_get_packet_structure_short in Hd by done. discriminate. }
  rewrite rcon_get_packet_structure_fields in Hd by lia. injection Hd as <-.
  apply ascii_chars_is_ascii.
Qed.

Lemma state_of_snoc_pending p (st : promise_state) w :
  state_of p (set_promises (promises w ++ [Pending]) w) = Some st ->
  st = Pending \/ state_of p w = Some st.
Proof.
  unfold state_of. cbn. intros [H|[_ H]]%lookup_app_Some; [by right|].
  left. destruct (p - length (promises w))%nat; cbn in H; [congruence|discriminate].
Qed.

Lemma emit_data_fulfilled p v (ls : list data_listener) chunk w :
  state_of p (emit_data ls chunk w).1 = Some (Fulfilled v) ->
  accepted v \/ state_of p w = Some (Fulfilled v).
Proof.
  revert w. induction ls as [|[q] ls IH]; intros w; [by right|].
  cbn [emit_data call_data].
  destruct (rcon_get_packet_structure chunk) as [response|e] eqn:Hd; [|by right].
  destruct (wrong_password response) eqn:Hc; [by right|].
  intros [H|H]%IH; [by left|]. unfold resolve in H.
  apply settle_inv in H as [[= ->]|H]; [|by right].
  left. split; [done|]. by eapply decoded_body_ascii.
Qed.

Lemma emit_data_rejected p e (ls : list data_listener) chunk w :
  state_of p (emit_data ls chunk w).1 = Some (Rejected e) ->
  state_of p w = Some (Rejected e).
Proof.
  revert w. induction ls as [|[q] ls IH]; intros w; [done|].
  cbn [emit_data call_data].
  destruct (rcon_get_packet_structure chunk) as [response|e']; [|done].
  destruct (wrong_password response); [done|].
  intros H%IH. unfold resolve in H. by apply settle_inv in H as [?|H].
Qed.

Lemma emit_error_fulfilled p v (ls : list error_listener) e w :
  state_of p (emit_error ls e w) = Some (Fulfilled v) ->
  state_of p w = Some (Fulfilled v).
Proof.
  revert w. induction ls as [|[|q] ls IH]; intros w; [done| apply IH |].
  cbn [emit_error fold_left call_error]. unfold emit_error in IH.
  intros H%IH. unfold reject in H. by apply settle_inv in H as [?|H].
Qed.

Lemma step_fulfilled p v w ev :
  state_of p (step w ev) = Some (Fulfilled v) ->
  accepted v \/ state_of p w = Some (Fulfilled v).
Proof.
  destruct (step_cases w ev) as [(packet & ->)|[(e & ->)|[(chunk & ->)|(e & ->)]]].
  - rewrite send_world. intros H. right.
    change (state_of p (set_promises (promises w ++ [Pending]) w) = Some (Fulfilled v)) in H.
    by apply state_of_snoc_pending in H as [?|H].
  - unfold rejected, reject. cbn [new_promise snd]. intros H. right.
    apply settle_inv in H as [?|H]; [done|].
    by apply state_of_snoc_pending in H as [?|H].
  - cbn [step]. pose proof (emit_data_fulfilled p v (data_listeners w) chunk w) as H.
    destruct (emit_data _ _ _) as [w' [e|]]; exact H.
  - cbn [step]. destruct (error_listeners w) as [|l ls]; [by right|].
    intros H. right. by eapply emit_error_fulfilled.
Qed.

(** X15. Inbound data never rejects a promise: a promise that is rejected
    after a chunk was delivered was rejected, with the same error, before. *)
Theorem data_never_rejects p (e : js_error) chunk w :
  state_of p (step w (Data chunk)) = Some (Rejected e) ->
  state_of p w = Some (Rejected e).
Proof.
  cbn [step]. pose proof (emit_data_rejected p e (data_listeners w) chunk w) as H.
  destruct (emit_data _ _ _) as [w' [e'|]]; exact H.
Qed.

Lemma data_never_rejects_witness :
  state_of 0 (run connected [Send ok_chunk; SocketFailure (SocketError "EPIPE")])
  = Some (Rejected (SocketError "EPIPE")).
Proof.
  apply (data_never_rejects 0 (SocketError "EPIPE") pong_chunk
           (run connected [Send ok_chunk; SocketFailure (SocketError "EPIPE")])).
  reflexivity.
Defined.

(** X16. A chunk touches the promise of the call whose listener is attached
    and no other: every other promise is after the chunk what it was
    before. *)
Theorem chunk_settles_one_call p q chunk w :
  data_listeners w = [SendData p] -> q <> p ->
  state_of q (step w (Data chunk)) = state_of q w.
Proof.
  intros Hl Hq. cbn [step].
  assert (Hnot : SendData q ∉ data_listeners w).
  { rewrite Hl. apply not_elem_of_cons. split; [congruence | apply not_elem_of_nil]. }
  pose proof (emit_data_other q (data_listeners w) chunk w Hnot) as H.
  destruct (emit_data _ _ _) as [w' [e|]]; exact H.
Qed.

Lemma chunk_settles_one_call_witness :
  state_of 0 (step (run connected [Send ok_chunk; Send pong_chunk]) (Data ok_chunk))
  = Some Pending.
Proof.
  apply (chunk_settles_one_call 1 0 ok_chunk (run connected [Send ok_chunk; Send pong_chunk]));
    [reflexivity | discriminate].
Defined.

(** X17. No call ever resolves with the answer to a wrong password, nor with
    anything but a packet structure: in every state the session reaches, a
    fulfilled promise holds a decoded packet that is not (type 2 and id -1)
    and whose body is made of 7-bit characters. *)
Theorem fulfilled_with_accepted_packet evs p (v : js_value) :
  state_of p (run connected evs) = Some (Fulfilled v) ->
  exists response,
    v = VPacket response /\ ~ (type response = 2 /\ id response = -1) /\ is_ascii (body response).
Proof.
  assert (Hinv : forall w, (forall q u, state_of q w = Some (Fulfilled u) -> accepted u) ->
                 forall q u, state_of q (run w evs) = Some (Fulfilled u) -> accepted u).
  { induction evs as [|ev evs IH]; intros w Hw q u; [apply Hw|].
    cbn [run fold_left]. apply IH. intros q' u' [H|H]%step_fulfilled; [done|].
    by eapply Hw. }
  intros H. apply Hinv in H.
  - destruct v as [response|text]; [|done]. destruct H as [Hc Hb].
    exists response. split; [done|]. split; [|done].
    intros [Hty Hid]. unfold wrong_password in Hc. by rewrite Hty, Hid in Hc.
  - intros q u Hq. unfold state_of in Hq. cbn in Hq. by rewrite lookup_nil in Hq.
Qed.

Lemma fulfilled_with_accepted_packet_witness :
  exists response,
    VPacket {| size := 14; id := 4242; type := 0; body := str "pong" |} = VPacket response
    /\ ~ (type response = 2 /\ id response = -1) /\ is_ascii (body response).
Proof.
  apply (fulfilled_with_accepted_packet [Command (str "ping") 4242; Data pong_chunk] 0).
  reflexivity.
Defined.

End SessionTraces.

(** * Properties of [wait] *)

Section WaitTimers.

Context {State : Type}.

Implicit Types (l : @Utils.Loop State) (p q k : nat) (D : Z) (c : @Utils.callback State)
  (t : @Utils.timer State) (ev : @Utils.tick State) (evs : list (@Utils.tick State)).

Lemma count_snoc (qs : list nat) p q :
  count_occ Nat.eq_dec (qs ++ [q]) p
  = (count_occ Nat.eq_dec qs p + (if decide (q = p) then 1 else 0))%nat.
Proof.
  rewrite count_occ_app. cbn [count_occ].
  destruct (Nat.eq_dec q p), (decide (q = p)); congruence.
Qed.

Lemma fire_frame t l :
  Utils.now (Utils.fire t l) = Utils.now l
  /\ Utils.timers (Utils.fire t l) = Utils.timers l
  /\ length (Utils.waits (Utils.fire t l)) = length (Utils.waits l)
  /\ Utils.ran (Utils.fire t l) = Utils.ran l ++ [Utils.timer_promise t].
Proof.
  unfold Utils.fire. destruct (Utils.timer_cb t (Utils.program l)) as [s [e|]];
    cbn; rewrite ?length_insert; done.
Qed.

(** What the closure of a timer leaves, for a promise that is not its own. *)
Lemma fire_other t p l :
  Utils.timer_promise t <> p ->
  Utils.waits (Utils.fire t l) !! p = Utils.waits l !! p
  /\ Utils.runs p (Utils.fire t l) = Utils.runs p l.
Proof.
  intros Hne. destruct (fire_frame t l) as (_ & _ & _ & Hran).
  unfold Utils.runs. rewrite Hran, count_snoc.
  destruct (decide (Utils.timer_promise t = p)) as [?|_]; [done|]. split; [|lia].
  unfold Utils.fire. destruct (Utils.timer_cb t (Utils.program l)) as [s [e|]];
    cbn [Utils.waits]; [done|]. by apply list_lookup_insert_ne.
Qed.

(** What it leaves for its own promise. *)
Lemma fire_own t l :
  (Utils.timer_promise t < length (Utils.waits l))%nat ->
  Utils.runs (Utils.timer_promise t) (Utils.fire t l)
  = S (Utils.runs (Utils.timer_promise t) l)
  /\ ((Utils.waits (Utils.fire t l) !! Utils.timer_promise t = Some Utils.Resolved
       /\ (Utils.timer_cb t (Utils.program l)).2 = None)
      \/ (Utils.waits (Utils.fire t l) !! Utils.timer_promise t
          = Utils.waits l !! Utils.timer_promise t
          /\ (Utils.timer_cb t (Utils.program l)).2 <> None)).
Proof.
  intros Hp. destruct (fire_frame t l) as (_ & _ & _ & Hran).
  unfold Utils.runs. rewrite Hran, count_snoc.
  destruct (decide (Utils.timer_promise t = Utils.timer_promise t)) as [_|?]; [|done].
  split; [lia|].
  unfold Utils.fire. destruct (Utils.timer_cb t (Utils.program l)) as [s [e|]];
    cbn [Utils.waits snd]; [by right|].
  left. split; [|done]. by apply list_lookup_insert_eq.
Qed.

Lemma timers_known_advance l ev : Utils.timers_known l -> Utils.timers_known (Utils.advance l ev).
Proof.
  intros [Ht Hr]. destruct ev as [dt|k|ms cb]; cbn [Utils.advance].
  - destruct (dt <? 0); done.
  - destruct (Utils.timers l !! k) as [t|] eqn:Ek; [|done].
    destruct (Utils.due t <=? Utils.now l); [|done].
    unfold Utils.timers_known.
    destruct (fire_frame t (Utils.mkLoop (Utils.now l) (delete k (Utils.timers l))
                              (Utils.waits l) (Utils.program l) (Utils.ran l)
                              (Utils.thrown l))) as (_ & -> & -> & ->).
    cbn. split; [by apply Forall_delete|].
    apply Forall_app. split; [done|]. repeat constructor.
    rewrite Forall_lookup in Ht. apply (Ht _ _ Ek).
  - unfold Utils.timers_known, Utils.wait. cbn. rewrite length_app. cbn [length].
    split; [apply Forall_app; split|].
    + eapply Forall_impl; [exact Ht|]. cbn. intros; lia.
    + repeat constructor. cbn. lia.
    + eapply Forall_impl; [exact Hr|]. cbn. intros; lia.
Qed.

Lemma tracked_wait (ms : option Z) (cb : option Utils.callback) l :
  Utils.timers_known l ->
  Utils.tracked (Utils.wait ms cb l).1
    (Utils.now l + Utils.timeout_delay (default 1000 ms)) (default Utils.noop cb)
    (Utils.wait ms cb l).2.
Proof.
  intros Hk. split; [apply (timers_known_advance l (Utils.Wait ms cb) Hk)|].
  destruct Hk as [Ht Hr]. unfold Utils.wait.
  cbn [fst snd Utils.timers Utils.waits]. rewrite length_app. cbn [length].
  split; [lia|left].
  split; [by rewrite lookup_app_r, Nat.sub_diag by lia|]. split.
  - unfold Utils.runs. cbn [Utils.ran]. apply count_occ_not_In. intros Hin.
    rewrite Forall_forall in Hr. apply list_elem_of_In, Hr in Hin. lia.
  - exists (length (Utils.timers l)). split.
    + by rewrite lookup_app_r, Nat.sub_diag by lia.
    + intros j t Hj Hp. apply lookup_app_Some in Hj as [Hj|[Hle Hj]].
      * rewrite Forall_lookup in Ht. specialize (Ht _ _ Hj). cbn in Ht. lia.
      * apply lookup_lt_Some in Hj. cbn in Hj. lia.
Qed.

Lemma tracked_advance p D c l ev :
  Utils.tracked p D c l -> Utils.tracked p D c (Utils.advance l ev).
Proof.
  intros (Hk & Hp & Hcase).
  split; [by apply timers_known_advance|].
  destruct ev as [dt|k|ms cb]; cbn [Utils.advance].
  - destruct (Z.ltb_spec dt 0); [done|]. split; [done|].
    destruct Hcase as [HA|(Hr & HD & Hf & Hs)]; [by left|].
    right. cbn [Utils.now]. repeat split; try done. lia.
  - destruct (Utils.timers l !! k) as [t|] eqn:Ek; [|done].
    destruct (Z.leb_spec (Utils.due t) (Utils.now l)) as [Hdue|]; [|done].
    set (l' := Utils.mkLoop (Utils.now l) (delete k (Utils.timers l)) (Utils.waits l)
                 (Utils.program l) (Utils.ran l) (Utils.thrown l)).
    destruct (fire_frame t l') as (Hnow & Htim & Hlen & _).
    rewrite Hlen, Htim, Hnow. cbn [l' Utils.waits Utils.timers Utils.now].
    split; [done|].
    destruct Hcase as [(Hw & Hr & k0 & Hk0 & Huniq)|(Hr & HD & Hf & Hs)].
    + destruct (decide (k = k0)) as [->|Hne].
      * (* the timer of [p] expires *)
        rewrite Hk0 in Ek. injection Ek as <-.
        destruct (fire_own (Utils.mkTimer D c p) l') as (Hruns & Hst); [done|].
        cbn [Utils.timer_promise Utils.timer_cb Utils.due] in *.
        right. split; [by rewrite Hruns; change (Utils.runs p l') with (Utils.runs p l); rewrite Hr|].
        split; [done|]. split.
        -- apply Forall_lookup. intros j t Hj Ht.
           destruct (decide (j < k0)%nat).
           ++ rewrite list_lookup_delete_lt in Hj by done.
              specialize (Huniq _ _ Hj Ht). lia.
           ++ rewrite list_lookup_delete_ge in Hj by lia.
              specialize (Huniq _ _ Hj Ht). lia.
        -- exists (Utils.program l). destruct Hst as [[E Hc]|[E Hc]]; [by left|].
           right. split; [|done]. by rewrite E.
      * (* another timer expires *)
        assert (Hother : Utils.timer_promise t <> p).
        { intros Ht. specialize (Huniq _ _ Ek Ht). done. }
        destruct (fire_other t p l' Hother) as (Ew & Er).
        left. rewrite Ew, Er. split; [done|]. split; [done|].
        exists (if decide (k < k0)%nat then (k0 - 1)%nat else k0). split.
        -- destruct (decide (k < k0)%nat).
           ++ rewrite list_lookup_delete_ge by lia.
              by replace (S (k0 - 1)) with k0 by lia.
           ++ by rewrite list_lookup_delete_lt by lia.
        -- intros j t' Hj Ht'. destruct (decide (j < k)%nat).
           ++ rewrite list_lookup_delete_lt in Hj by done.
              specialize (Huniq _ _ Hj Ht'). destruct (decide (k < k0)%nat); lia.
           ++ rewrite list_lookup_delete_ge in Hj by lia.
              specialize (Huniq _ _ Hj Ht'). destruct (decide (k < k0)%nat); lia.
    + assert (Hother : Utils.timer_promise t <> p).
      { rewrite Forall_lookup in Hf. apply (Hf _ _ Ek). }
      destruct (fire_other t p l' Hother) as (Ew & Er).
      right. rewrite Er. split; [done|]. split; [done|].
      split; [by apply Forall_delete|].
      destruct Hs as (s & Hs). exists s. by rewrite Ew.
  - unfold Utils.wait. cbn [snd Utils.waits Utils.timers Utils.now].
    rewrite length_app. split; [lia|].
    destruct Hk as [Ht _].
    destruct Hcase as [(Hw & Hr & k0 & Hk0 & Huniq)|(Hr & HD & Hf & s & Hs)].
    + left. split; [by rewrite lookup_app_l|]. split; [done|].
      exists k0. split; [by apply lookup_app_l_Some|].
      intros j t Hj Hpt. apply lookup_app_Some in Hj as [Hj|[Hle Hj]]; [by eapply Huniq|].
      destruct (j - length (Utils.timers l))%nat; [|done].
      injection Hj as <-. cbn in Hpt. lia.
    + right. split; [done|]. split; [done|]. split.
      * apply Forall_app. split; [done|]. repeat constructor. cbn. lia.
      * exists s. by rewrite lookup_app_l.
Qed.

Lemma tracked_elapse p D c l evs :
  Utils.tracked p D c l -> Utils.tracked p D c (Utils.elapse l evs).
Proof.
  revert l. induction evs as [|ev evs IH]; intros l H; [done|].
  cbn [Utils.elapse fold_left]. by apply IH, tracked_advance.
Qed.

Lemma tracked_after_wait (ms : option Z) (cb : option Utils.callback) l evs :
  Utils.timers_known l ->
  Utils.tracked (Utils.wait ms cb l).1
    (Utils.now l + Utils.timeout_delay (default 1000 ms)) (default Utils.noop cb)
    (Utils.elapse (Utils.wait ms cb l).2 evs).
Proof. intros Hk. by apply tracked_elapse, tracked_wait. Qed.

Lemma timeout_delay_positive (ms : Z) : 1 <= Utils.timeout_delay ms.
Proof.
  unfold Utils.timeout_delay. destruct (Z.leb_spec 1 ms); cbn [andb]; [|lia].
  destruct (ms <=? Utils.TIMEOUT_MAX); lia.
Qed.


(** X19. The callback of [wait] is called at most once, whatever time passes
    and whatever other timers are set and expire. *)
Theorem wait_callback_at_most_once (ms : option Z) (cb : option Utils.callback) l evs :
  Utils.timers_known l ->
  (Utils.runs (Utils.wait ms cb l).1 (Utils.elapse (Utils.wait ms cb l).2 evs) <= 1)%nat.
Proof.
  intros Hk.
  destruct (tracked_after_wait ms cb l evs Hk) as (_ & _ & [(_ & -> & _)|(-> & _)]); lia.
Qed.


(** X21. A callback that raises leaves [wait] pending for ever: the closure
    of the timer stops before [resolve], and nothing else resolves the
    promise. *)
Theorem wait_throwing_callback_never_resolves (ms : option Z) c l evs :
  Utils.timers_known l ->
  (forall s, (c s).2 <> None) ->
  Utils.waits (Utils.elapse (Utils.wait ms (Some c) l).2 evs) !! (Utils.wait ms (Some c) l).1
  = Some Utils.Waiting.
Proof.
  intros Hk Hc.
  destruct (tracked_after_wait ms (Some c) l evs Hk)
    as (_ & _ & [(Hw & _)|(_ & _ & _ & s & [[_ Hs]|[Hw _]])]); try done.
  by specialize (Hc s).
Qed.

(** X22. Once the delay has passed, the expiry of the timer of [wait] calls
    the callback on the state of the program, once, and resolves the
    promise if the callback returns. *)
Theorem wait_expires_when_due (ms : option Z) (cb : option Utils.callback) l (dt : Z) :
  Utils.timers_known l ->
  Utils.timeout_delay (default 1000 ms) <= dt ->
  Utils.program (Utils.elapse (Utils.wait ms cb l).2
                   [Utils.Elapse dt; Utils.Expire (length (Utils.timers l))])
    = (default Utils.noop cb (Utils.program l)).1
  /\ Utils.runs (Utils.wait ms cb l).1
       (Utils.elapse (Utils.wait ms cb l).2
          [Utils.Elapse dt; Utils.Expire (length (Utils.timers l))]) = 1%nat
  /\ ((default Utils.noop cb (Utils.program l)).2 = None ->
      Utils.waits (Utils.elapse (Utils.wait ms cb l).2
                     [Utils.Elapse dt; Utils.Expire (length (Utils.timers l))])
        !! (Utils.wait ms cb l).1 = Some Utils.Resolved).
Proof.
  intros Hk Hdt. pose proof (timeout_delay_positive (default 1000 ms)) as Hpos.
  set (p := length (Utils.waits l)).
  set (t := Utils.mkTimer (Utils.now l + Utils.timeout_delay (default 1000 ms))
              (default Utils.noop cb) p).
  set (l' := Utils.mkLoop (Utils.now l + dt) (Utils.timers l)
               (Utils.waits l ++ [Utils.Waiting]) (Utils.program l) (Utils.ran l)
               (Utils.thrown l)).
  assert (Hrun : Utils.elapse (Utils.wait ms cb l).2
                   [Utils.Elapse dt; Utils.Expire (length (Utils.timers l))]
                 = Utils.fire t l').
  { unfold Utils.wait. cbn [Utils.elapse fold_left Utils.advance snd].
    destruct (Z.ltb_spec dt 0); [lia|].
    cbn [Utils.timers Utils.now Utils.waits Utils.program Utils.ran Utils.thrown].
    rewrite lookup_app_r by lia. rewrite Nat.sub_diag. cbn [lookup list_lookup Utils.due].
    destruct (Z.leb_spec (Utils.now l + Utils.timeout_delay (default 1000 ms))
                (Utils.now l + dt)); [|lia].
    by rewrite (delete_middle (Utils.timers l) []), app_nil_r. }
  rewrite Hrun. change (Utils.wait ms cb l).1 with (Utils.timer_promise t).
  assert (Hfresh : Utils.runs (Utils.timer_promise t) l' = 0%nat).
  { unfold Utils.runs. cbn. apply count_occ_not_In. intros Hin.
    destruct Hk as [_ Hran]. rewrite Forall_forall in Hran.
    apply list_elem_of_In, Hran in Hin. unfold p in Hin. lia. }
  destruct (fire_own t l') as (Hruns & Hst).
  { cbn. rewrite length_app. cbn. unfold p. lia. }
  split; [|split].
  - unfold Utils.fire. cbn [t l' Utils.timer_cb Utils.program].
    by destruct (default Utils.noop cb (Utils.program l)) as [s [e|]].
  - by rewrite Hruns, Hfresh.
  - intros Hc. by destruct Hst as [[E _]|[_ Hne]].
Qed.

End WaitTimers.

Section WaitExamples.

Lemma started_known (n : nat) : Utils.timers_known (Utils.started n).
Proof. split; constructor. Qed.


Lemma wait_callback_at_most_once_witness :
  (Utils.runs 0 (Utils.elapse (Utils.wait None (Some Utils.count_up) (Utils.started 0%nat)).2
                   [Utils.Elapse 1000; Utils.Expire 0; Utils.Expire 0; Utils.Elapse 5])
   <= 1)%nat.
Proof. apply wait_callback_at_most_once, started_known. Defined.


Lemma wait_throwing_callback_never_resolves_witness :
  Utils.waits (Utils.elapse (Utils.wait (Some 5) (Some Utils.raise) (Utils.started 0%nat)).2
                 [Utils.Elapse 5; Utils.Expire 0; Utils.Elapse 100000]) !! 0%nat
  = Some Utils.Waiting.
Proof.
  apply (wait_throwing_callback_never_resolves (Some 5) Utils.raise (Utils.started 0%nat));
    [apply started_known | discriminate].
Defined.

Lemma wait_expires_when_due_witness :
  Utils.program (Utils.elapse (Utils.wait None None (Utils.started 7%nat)).2
                   [Utils.Elapse 1000; Utils.Expire 0]) = 7%nat
  /\ Utils.runs 0 (Utils.elapse (Utils.wait None None (Utils.started 7%nat)).2
                     [Utils.Elapse 1000; Utils.Expire 0]) = 1%nat
  /\ Utils.waits (Utils.elapse (Utils.wait None None (Utils.started 7%nat)).2
                    [Utils.Elapse 1000; Utils.Expire 0]) !! 0%nat = Some Utils.Resolved.
Proof.
  destruct (wait_expires_when_due None None (Utils.started 7%nat) 1000 (started_known 7))
    as (H1 & H2 & H3); [reflexivity|].
  split; [exact H1|]. split; [exact H2 | by apply H3].
Defined.

End WaitExamples.
